(** * Routing, metrics and authentication of the proxy server

    A shallow embedding of [src/services/proxyService.ts],
    [src/services/sessionService.ts], [src/middleware/auth.ts], the
    routes of [src/routes/proxy.ts] and the mount of the router in
    [src/index.ts], with the properties of the routing-and-health
    subsystem stated over it.

    Conventions of the embedding:
    - a JS number holding an integer is a [Z] (times in milliseconds,
      status codes, hashes) or a [nat] (array lengths, the round-robin
      counter, which starts at 0 and is only ever incremented);
    - 32-bit bit operations are written with their wrap-around ([to_int32]);
    - the objects of [coreConfigs] are shared between [coreConfigs] and
      [activeConfigs]: a backend is a reference (its position in
      [coreConfigs]) and [activeConfigs] is a list of references;
    - a sweep is a sequence of steps (one write of a flag per probe, then
      the rebuild of [activeConfigs]) that other requests can interleave
      with;
    - a URL is its path: query strings are left out;
    - every [Date.now()] / [new Date()] is an explicit clock reading;
    - what the libraries decide (the backend's answer, [jwt.verify],
      [Math.random], [uuidv4]) is an input of the function that consults it. *)

From Stdlib Require Import ZArith List String Ascii Bool Arith Lia QArith.
From Stdlib Require Import Permutation Sorted.
Import ListNotations.

Local Open Scope string_scope.
Local Open Scope list_scope.
Local Open Scope Z_scope.

(* ================================================================== *)
(** ** JavaScript values *)

Module JS.

(** [ToInt32]: the signed 32-bit integer congruent to [z] modulo 2^32. *)
Definition to_int32 (z : Z) : Z := (z + 2 ^ 31) mod 2 ^ 32 - 2 ^ 31.

(** [a << k] on 32-bit operands. *)
Definition shl (a k : Z) : Z :=
  to_int32 (Z.shiftl (to_int32 a) (Z.land k 31)).

(** [a & b] on 32-bit operands. *)
Definition band (a b : Z) : Z := Z.land (to_int32 a) (to_int32 b).

(** [a % b] on integers: the remainder has the sign of the dividend. *)
Definition rem (a b : Z) : Z := Z.rem a b.

(** [s.charCodeAt(i)] for every [i]: the code units of the string. *)
Definition charCodes (s : string) : list Z :=
  map (fun c => Z.of_nat (nat_of_ascii c)) (list_ascii_of_string s).

(** Truthiness of an optional string ([undefined] and [''] are falsy). *)
Definition truthy (o : option string) : bool :=
  match o with
  | Some s => negb (s =? "")%string
  | None => false
  end.

(** [a[i]] for an integer-valued index: [undefined] out of range. *)
Definition index {A} (a : list A) (i : Z) : option A :=
  if i <? 0 then None else nth_error a (Z.to_nat i).

(** [a.slice(-n)]: the last [n] elements (all of them when there are fewer). *)
Definition slice_last {A} (n : nat) (a : list A) : list A :=
  skipn (List.length a - n) a.

(** [s.startsWith(p)]. *)
Definition startsWith (s p : string) : bool := String.prefix p s.

End JS.

(* ================================================================== *)
(** ** Types ([src/types]) *)

Record CoreConfig := mkCoreConfig {
  name : string;
  url : string;
  healthCheck : string;
  weight : Z;
  isActive : bool
}.

Record RequestMetrics := mkRequestMetrics {
  requestId : option string;
  method : string;
  path : string;
  targetCore : string;
  responseTime : Z;
  statusCode : Z;
  timestamp : Z
}.

Record AuthUser := mkAuthUser {
  id : string;
  username : string;
  role : string;
  permissions : list string
}.

Record SessionData := mkSessionData {
  userId : option string;
  userRole : option string;
  preferences : list (string * string);
  lastActivity : option Z
}.

(** The payload [jwt.verify] returns for a token made by [generateJWT]:
    the three signed fields and the two the library adds. *)
Record JwtPayload := mkJwtPayload {
  jwt_userId : string;
  jwt_username : string;
  jwt_role : string;
  jwt_iat : Z;
  jwt_exp : Z
}.

(** What [req.user] can hold: [optionalAuth] stores a user of the user list
    there, [requireAuth] and [optionalAuth] store a decoded token. *)
Inductive ReqUser :=
| StoredUser (u : AuthUser)
| DecodedToken (p : JwtPayload).

(** The request as the handlers read it. [req_path] is [req.path], the path
    of [req.url] at the moment a handler reads it: under a mount it is the
    path relative to the mount. [req_originalUrl] is the path of
    [req.originalUrl], the URL as it came in (query strings are left out).
    [req_session] is [None] once the session is destroyed. *)
Record Request := mkRequest {
  req_method : string;
  req_path : string;
  req_session : option SessionData;
  req_authorization : option string;
  req_request_id : option string;
  req_user : option ReqUser;
  req_originalUrl : string
}.

(** A JSON response: the status and the fields of the body, and the cookies
    cleared on the way. *)
Record Response := mkResponse {
  res_status : Z;
  res_body : list (string * string);
  res_clearedCookies : list string
}.

Definition json (status : Z) (body : list (string * string)) : Response :=
  mkResponse status body [].

Definition body_field (k : string) (r : Response) : option string :=
  option_map snd (find (fun kv => (fst kv =? k)%string) (res_body r)).

(* ================================================================== *)
(** ** [config/index.ts] *)

Definition coreConfigs0 : list CoreConfig :=
  [ mkCoreConfig "core-api-1" "http://localhost:4001" "/health" 1 true;
    mkCoreConfig "core-api-2" "http://localhost:4002" "/health" 1 true;
    mkCoreConfig "core-api-3" "http://localhost:4003" "/health" 1 true ].

(* ================================================================== *)
(** ** [ProxyService] *)

Module ProxyService.

(** The static fields of the class, with the exported [coreConfigs] array
    whose objects they share. A backend reference is a position in
    [coreConfigs]. *)
Record state := mkState {
  coreConfigs : list CoreConfig;
  activeConfigs : list nat;
  requestMetrics : list RequestMetrics;
  currentCoreIndex : nat
}.

Definition deref (cfgs : list CoreConfig) (r : nat) : option CoreConfig :=
  nth_error cfgs r.

Definition refActive (cfgs : list CoreConfig) (r : nat) : bool :=
  match deref cfgs r with
  | Some c => isActive c
  | None => false
  end.

Definition refName (cfgs : list CoreConfig) (r : nat) : string :=
  match deref cfgs r with
  | Some c => name c
  | None => ""
  end.

(** [coreConfigs.filter(config => config.isActive)] *)
Definition filterActive (cfgs : list CoreConfig) : list nat :=
  filter (refActive cfgs) (seq 0 (List.length cfgs)).

(** The class as initialised when the module is loaded. *)
Definition init (cfgs : list CoreConfig) : state :=
  mkState cfgs (filterActive cfgs) [] 0.

(** [updateCoreStatuses], with [checkCoreHealth] given by what the probe
    of each backend answers. *)
Definition updateCoreStatuses (checkCoreHealth : CoreConfig -> bool)
           (s : state) : state :=
  let cfgs :=
    map (fun config =>
           mkCoreConfig (name config) (url config) (healthCheck config)
                        (weight config) (checkCoreHealth config))
        (coreConfigs s) in
  mkState cfgs (filterActive cfgs) (requestMetrics s) (currentCoreIndex s).

(** [config.isActive = isHealthy] for the backend at position [r]: what one
    iteration of the loop of [updateCoreStatuses] writes once its probe has
    answered. The other backends and [activeConfigs] are left as they
    are. *)
Fixpoint setActive (r : nat) (isHealthy : bool) (cfgs : list CoreConfig)
         {struct cfgs} : list CoreConfig :=
  match cfgs with
  | [] => []
  | config :: rest =>
      match r with
      | O => mkCoreConfig (name config) (url config) (healthCheck config)
                          (weight config) isHealthy :: rest
      | S r => config :: setActive r isHealthy rest
      end
  end.

Definition writeFlag (r : nat) (isHealthy : bool) (s : state) : state :=
  mkState (setActive r isHealthy (coreConfigs s)) (activeConfigs s)
          (requestMetrics s) (currentCoreIndex s).

(** [this.activeConfigs = coreConfigs.filter(config => config.isActive)],
    the last statement of [updateCoreStatuses]. *)
Definition rebuildActive (s : state) : state :=
  mkState (coreConfigs s) (filterActive (coreConfigs s)) (requestMetrics s)
          (currentCoreIndex s).

(** The loop of [updateCoreStatuses] from position [r] on, [todo] backends
    being left to probe: each iteration awaits the probe of its backend and
    writes the flag. Other work of the server can run between two
    iterations. *)
Fixpoint probeLoop (checkCoreHealth : CoreConfig -> bool) (r todo : nat)
         (s : state) : state :=
  match todo with
  | O => s
  | S todo =>
      match deref (coreConfigs s) r with
      | Some config =>
          probeLoop checkCoreHealth (S r) todo
                    (writeFlag r (checkCoreHealth config) s)
      | None => s
      end
  end.

(** [selectCore] *)
Definition selectCore (s : state) : option nat * state :=
  if (List.length (activeConfigs s) =? 0)%nat then (None, s)
  else
    let selectedCore :=
      nth_error (activeConfigs s)
                (currentCoreIndex s mod List.length (activeConfigs s))%nat in
    (selectedCore,
     mkState (coreConfigs s) (activeConfigs s) (requestMetrics s)
             (S (currentCoreIndex s))).

(** [simpleHash], over the code units of the string. *)
Definition hashStep (hash char : Z) : Z :=
  let hash := JS.shl hash 5 - hash + char in
  JS.band hash hash.

Definition simpleHashCodes (str : list Z) : Z :=
  Z.abs (fold_left hashStep str 0).

Definition simpleHash (str : string) : Z :=
  simpleHashCodes (JS.charCodes str).

(** [selectCoreByUser] *)
Definition selectCoreByUser (userId : string) (s : state) : option nat :=
  if (List.length (activeConfigs s) =? 0)%nat then None
  else
    let hash := simpleHash userId in
    let coreIndex := JS.rem hash (Z.of_nat (List.length (activeConfigs s))) in
    JS.index (activeConfigs s) coreIndex.

(** [this.activeConfigs.find(c => c.name === n)] *)
Definition findByName (n : string) (s : state) : option nat :=
  find (fun r => (refName (coreConfigs s) r =? n)%string) (activeConfigs s).

Definition orSelectCore (found : option nat) (s : state)
  : option nat * state :=
  match found with
  | Some r => (Some r, s)
  | None => selectCore s
  end.

(** [selectCoreByPath] *)
Definition selectCoreByPath (path : string) (s : state)
  : option nat * state :=
  if (List.length (activeConfigs s) =? 0)%nat then (None, s)
  else if JS.startsWith path "/api/v1" then
    orSelectCore (findByName "core-api-1" s) s
  else if JS.startsWith path "/api/v2" then
    orSelectCore (findByName "core-api-2" s) s
  else if JS.startsWith path "/api/v3" then
    orSelectCore (findByName "core-api-3" s) s
  else selectCore s.

(** What the backend exchange of one forwarded request comes to: a response
    with its status code (possibly absent), or a timeout or connection
    failure. *)
Inductive BackendResult :=
| BackendResponse (proxyRes_statusCode : option Z)
| BackendError (err_message : string).

(** What the client gets: a JSON response of the proxy itself, or the
    backend's response relayed. *)
Inductive ClientReply :=
| Sent (res : Response)
| Relayed (proxyRes_statusCode : option Z).

(** [onProxyReq]: the correlation id is drawn and put on the request. *)
Definition onProxyReq (uuid : string) (req : Request) : Request :=
  mkRequest (req_method req) (req_path req) (req_session req)
            (req_authorization req) (Some uuid) (req_user req)
            (req_originalUrl req).

(** [this.requestMetrics.push(metrics)] and the trim that follows it. *)
Definition pushMetrics (metrics : RequestMetrics) (s : state) : state :=
  let pushed := requestMetrics s ++ [metrics] in
  let kept :=
    if (1000 <? List.length pushed)%nat then JS.slice_last 1000 pushed
    else pushed in
  mkState (coreConfigs s) (activeConfigs s) kept (currentCoreIndex s).

(** The [metrics] object of [onProxyRes]. [startTime], [now] and [date] are
    the three clock readings of the handler, in order:
    [const startTime = Date.now()], the [Date.now()] of [responseTime] and
    the [new Date()] of [timestamp]. *)
Definition outcomeOf (targetCore : nat) (proxyRes_statusCode : option Z)
           (startTime now date : Z) (req : Request) (s : state)
  : RequestMetrics :=
  let requestId := req_request_id req in
  mkRequestMetrics requestId (req_method req) (req_path req)
                   (refName (coreConfigs s) targetCore)
                   (now - startTime)
                   (match proxyRes_statusCode with
                    | Some c => c
                    | None => 0
                    end)
                   date.

(** [onProxyRes]: the outcome is built and recorded. *)
Definition onProxyRes (targetCore : nat) (proxyRes_statusCode : option Z)
           (startTime now date : Z) (req : Request) (s : state) : state :=
  pushMetrics (outcomeOf targetCore proxyRes_statusCode startTime now date
                         req s) s.

(** [onError] *)
Definition onError (err_message : string) (req : Request) (s : state)
  : Response * state :=
  let requestId := req_request_id req in
  (json 502
        ([("error", "Bad Gateway");
          ("message", "Erro ao comunicar com o serviço de destino")]
         ++ match requestId with
            | Some i => [("requestId", i)]
            | None => []
            end),
   s).

(** What the proxy library does to the request before it dispatches it:
    [req.url = req.originalUrl || req.url], so that the whole URL is
    forwarded, whatever mount the middleware runs under. *)
Definition restoreUrl (req : Request) : Request :=
  if JS.truthy (Some (req_originalUrl req)) then
    mkRequest (req_method req) (req_originalUrl req) (req_session req)
              (req_authorization req) (req_request_id req) (req_user req)
              (req_originalUrl req)
  else req.

(** The middleware [createProxyMiddleware(targetCore)] returns, run on one
    request: the URL is restored, the request is dispatched ([onProxyReq])
    and the exchange ends in [onProxyRes] or in [onError]. *)
Definition proxyMiddleware (targetCore : nat) (uuid : string)
           (backend : BackendResult) (startTime now date : Z)
           (req : Request) (s : state) : ClientReply * state :=
  let req := restoreUrl req in
  let req := onProxyReq uuid req in
  match backend with
  | BackendResponse code =>
      (Relayed code, onProxyRes targetCore code startTime now date req s)
  | BackendError msg =>
      let (res, s) := onError msg req s in (Sent res, s)
  end.

(** [Math.random() < 0.1] *)
Definition sweepDrawn (random : Q) : bool :=
  negb (Qle_bool (1 # 10) random).

(** [if (Math.random() < 0.1) await this.updateCoreStatuses()] *)
Definition opportunisticSweep (random : Q)
           (checkCoreHealth : CoreConfig -> bool) (s : state) : state :=
  if sweepDrawn random then updateCoreStatuses checkCoreHealth s else s.

(** The selection of [intelligentRouter]: the opportunistic sweep, then the
    strategy chosen on [req.session?.userId]. *)
Definition routeSelect (random : Q) (checkCoreHealth : CoreConfig -> bool)
           (req : Request) (s : state) : option nat * state :=
  let s := opportunisticSweep random checkCoreHealth s in
  let session_userId :=
    match req_session req with
    | Some sess => userId sess
    | None => None
    end in
  match session_userId with
  | Some uid =>
      if JS.truthy (Some uid) then (selectCoreByUser uid s, s)
      else selectCoreByPath (req_path req) s
  | None => selectCoreByPath (req_path req) s
  end.

(** [intelligentRouter]: 503 when nothing is selected, otherwise the proxy
    middleware for the selected backend. *)
Definition intelligentRouter (random : Q)
           (checkCoreHealth : CoreConfig -> bool) (uuid : string)
           (backend : BackendResult) (startTime now date : Z)
           (req : Request) (s : state) : ClientReply * state :=
  let (selectedCore, s) := routeSelect random checkCoreHealth req s in
  match selectedCore with
  | None =>
      (Sent (json 503 [("error", "Service Unavailable");
                       ("message", "Nenhum core disponível no momento")]),
       s)
  | Some targetCore =>
      proxyMiddleware targetCore uuid backend startTime now date req s
  end.

(** [k] consecutive calls of [selectCore]: the backends selected, in call
    order, and the state they leave. *)
Fixpoint selectCoreTimes (k : nat) (s : state) : list (option nat) * state :=
  match k with
  | O => ([], s)
  | S k =>
      let (selected, s) := selectCore s in
      let (rest, s) := selectCoreTimes k s in
      (selected :: rest, s)
  end.

(** The outcomes of a sequence of answered exchanges recorded one after the
    other. *)
Definition recordAll (outcomes : list RequestMetrics) (s : state) : state :=
  fold_left (fun s metrics => pushMetrics metrics s) outcomes s.

(** [getMetrics] *)
Definition getMetrics (s : state) : list RequestMetrics := requestMetrics s.

(** The count the metrics route reports: [totalRequests = metrics.length]. *)
Definition totalRequests (s : state) : nat := List.length (getMetrics s).

(** [recentMetrics: metrics.slice(-50)] of the metrics route. *)
Definition recentMetrics (s : state) : list RequestMetrics :=
  JS.slice_last 50 (getMetrics s).

End ProxyService.

(* ================================================================== *)
(** ** The token library

    [jwt.sign] and [jwt.verify] with the configured secret and lifetime.
    [jwt_verify] answers [None] where the library throws (bad signature,
    expired token). *)

(** The payload object [generateJWT] signs. *)
Record JwtClaims := mkJwtClaims {
  claim_userId : string;
  claim_username : string;
  claim_role : string
}.

Class Jwt := {
  jwt_sign : JwtClaims -> string;
  jwt_verify : string -> option JwtPayload
}.

(** What a token decodes to: the signed claims with the issue and expiry
    times the library adds. *)
Definition decodes_to (c : JwtClaims) (p : JwtPayload) : Prop :=
  jwt_userId p = claim_userId c /\
  jwt_username p = claim_username c /\
  jwt_role p = claim_role c.

(* ================================================================== *)
(** ** [SessionService] *)

Module SessionService.

Definition users : list AuthUser :=
  [ mkAuthUser "1" "admin" "admin" ["read"; "write"; "delete"];
    mkAuthUser "2" "user" "user" ["read"] ].

(** [config.session.timeout] when SESSION_TIMEOUT is not set. *)
Definition defaultTimeout : Z := 3600000.

(** The payload of [generateJWT]. *)
Definition jwtClaims (user : AuthUser) : JwtClaims :=
  mkJwtClaims (id user) (username user) (role user).

Definition generateJWT `{Jwt} (user : AuthUser) : string :=
  jwt_sign (jwtClaims user).

Definition verifyJWT `{Jwt} (token : string) : option JwtPayload :=
  jwt_verify token.

(** [createSession], [date] being its [new Date()]. *)
Definition createSession (date : Z) (user : AuthUser) (req : Request)
  : Request :=
  mkRequest (req_method req) (req_path req)
            (Some (mkSessionData (Some (id user)) (Some (role user)) []
                                 (Some date)))
            (req_authorization req) (req_request_id req) (req_user req)
            (req_originalUrl req).

(** [isSessionValid], [now] being its clock reading and [timeoutMs] the
    configured [config.session.timeout]. *)
Definition isSessionValid (timeoutMs now : Z) (sessionData : SessionData)
  : bool :=
  if negb (JS.truthy (userId sessionData)) then false
  else
    match lastActivity sessionData with
    | None => false
    | Some lastActivity => now - lastActivity <? timeoutMs
    end.

(** [updateLastActivity], [date] being its [new Date()]. *)
Definition updateLastActivity (date : Z) (req : Request) : Request :=
  match req_session req with
  | Some sess =>
      if JS.truthy (userId sess) then
        mkRequest (req_method req) (req_path req)
                  (Some (mkSessionData (userId sess) (userRole sess)
                                       (preferences sess) (Some date)))
                  (req_authorization req) (req_request_id req) (req_user req)
                  (req_originalUrl req)
      else req
  | None => req
  end.

(** [getUserFromSession]. The session middleware gives every request these
    handlers see a session object; a destroyed session yields no user. *)
Definition getUserFromSession (req : Request) : option AuthUser :=
  match req_session req with
  | Some sess =>
      match userId sess with
      | Some uid =>
          if JS.truthy (Some uid) then
            find (fun u => (id u =? uid)%string) users
          else None
      | None => None
      end
  | None => None
  end.

(** [req.session.destroy]: the session is gone from the request. *)
Definition destroy (req : Request) : Request :=
  mkRequest (req_method req) (req_path req) None
            (req_authorization req) (req_request_id req) (req_user req)
            (req_originalUrl req).

End SessionService.

(* ================================================================== *)
(** ** [middleware/auth.ts] *)

Module Auth.

Import SessionService.

(** A middleware either calls [next()] or answers the request itself. *)
Inductive Outcome :=
| Next (req : Request)
| Reply (req : Request) (res : Response).

Definition setUser (user : ReqUser) (req : Request) : Request :=
  mkRequest (req_method req) (req_path req) (req_session req)
            (req_authorization req) (req_request_id req) (Some user)
            (req_originalUrl req).

Definition sessionUserId (req : Request) : option string :=
  match req_session req with
  | Some sess => userId sess
  | None => None
  end.

(** The token of an [Authorization: Bearer ...] header, verified:
    [authHeader && authHeader.startsWith('Bearer ')], [substring(7)],
    [verifyJWT]. *)
Definition bearer `{Jwt} (req : Request) : option JwtPayload :=
  match req_authorization req with
  | Some authHeader =>
      if JS.startsWith authHeader "Bearer " then
        let token :=
          String.substring 7 (String.length authHeader - 7) authHeader in
        verifyJWT token
      else None
  | None => None
  end.

Definition sessionExpired : Response :=
  mkResponse 401
             [("error", "Session Expired");
              ("message", "Sessão expirada. Faça login novamente.")]
             ["connect.sid"].

Definition unauthorized (message : string) : Response :=
  json 401 [("error", "Unauthorized"); ("message", message)].

Definition forbidden (message : string) : Response :=
  json 403 [("error", "Forbidden"); ("message", message)].

(** [requireAuth]. [now] is the clock reading of [isSessionValid] and [date]
    the [new Date()] of [updateLastActivity]. *)
Definition requireAuth `{Jwt} (timeoutMs now date : Z) (req : Request)
  : Outcome :=
  let viaToken :=
    match bearer req with
    | Some decoded => Next (setUser (DecodedToken decoded) req)
    | None => Reply req (unauthorized "Acesso negado. Autenticação necessária.")
    end in
  match req_session req with
  | Some sess =>
      if JS.truthy (userId sess) then
        if isSessionValid timeoutMs now sess then
          Next (updateLastActivity date req)
        else Reply (destroy req) sessionExpired
      else viaToken
  | None => viaToken
  end.

(** [SessionService.getUserFromSession(req) || req.user] *)
Definition currentUser (req : Request) : option ReqUser :=
  match getUserFromSession req with
  | Some u => Some (StoredUser u)
  | None => req_user req
  end.

(** [user.permissions]: absent on a decoded token. *)
Definition userPermissions (user : ReqUser) : option (list string) :=
  match user with
  | StoredUser u => Some (permissions u)
  | DecodedToken _ => None
  end.

(** [user.role] *)
Definition userRoleOf (user : ReqUser) : string :=
  match user with
  | StoredUser u => role u
  | DecodedToken p => jwt_role p
  end.

(** [user.username] *)
Definition userNameOf (user : ReqUser) : string :=
  match user with
  | StoredUser u => username u
  | DecodedToken p => jwt_username p
  end.

(** [user.id]: a decoded token has [userId] and no [id]. *)
Definition userIdOf (user : ReqUser) : option string :=
  match user with
  | StoredUser u => Some (id u)
  | DecodedToken _ => None
  end.

(** [user.permissions?.includes(permission)], [undefined] being falsy. *)
Definition includesPermission (user : ReqUser) (permission : string) : bool :=
  match userPermissions user with
  | Some ps => existsb (fun p => (p =? permission)%string) ps
  | None => false
  end.

(** [requirePermission] *)
Definition requirePermission (permission : string) (req : Request)
  : Outcome :=
  match currentUser req with
  | None => Reply req (unauthorized "Usuário não autenticado.")
  | Some user =>
      if negb (includesPermission user permission) then
        Reply req (forbidden ("Permissão '" ++ permission ++ "' necessária."))
      else Next req
  end.

(** [requireRole] *)
Definition requireRole (role : string) (req : Request) : Outcome :=
  match currentUser req with
  | None => Reply req (unauthorized "Usuário não autenticado.")
  | Some user =>
      if negb (userRoleOf user =? role)%string then
        Reply req (forbidden ("Role '" ++ role ++ "' necessária."))
      else Next req
  end.

(** [optionalAuth]: it always calls [next()]. *)
Definition optionalAuth `{Jwt} (timeoutMs now date : Z) (req : Request)
  : Request :=
  let sessionOk :=
    match req_session req with
    | Some sess =>
        JS.truthy (userId sess) && isSessionValid timeoutMs now sess
    | None => false
    end in
  if sessionOk then
    let req := updateLastActivity date req in
    match getUserFromSession req with
    | Some user => setUser (StoredUser user) req
    | None => req
    end
  else
    match bearer req with
    | Some decoded => setUser (DecodedToken decoded) req
    | None => req
    end.

(** A route guarded by [requireAuth] and then by a second middleware, as in
    [router.get(path, requireAuth, requireRole('admin'), handler)]. *)
Definition andThen (o : Outcome) (mw : Request -> Outcome) : Outcome :=
  match o with
  | Next req => mw req
  | Reply _ _ => o
  end.

Definition accepted (o : Outcome) : bool :=
  match o with
  | Next _ => true
  | Reply _ _ => false
  end.

End Auth.

(* ================================================================== *)
(** ** States of the running proxy *)

Module Run.

Import ProxyService.

(** The registry is consistent when [activeConfigs] is the filter of
    [coreConfigs]: what the initialiser and the last statement of
    [updateCoreStatuses] establish, and what the write of a flag can
    break until the list is rebuilt. *)
Definition consistent (s : state) : Prop :=
  activeConfigs s = filterActive (coreConfigs s).

(** At least one backend of the registry has its flag set. *)
Definition someHealthy (s : state) : Prop :=
  exists r, refActive (coreConfigs s) r = true.

(** The runs of the service from the configuration [cfgs]. A sweep
    (periodic, forced or opportunistic) is not one step: it writes the flag
    of each backend when the probe of that backend has answered, and
    rebuilds [activeConfigs] after the last one; selections and recordings
    of other requests, and the writes of another sweep, can come in
    between. The steps are therefore the write of one flag, the rebuild of
    the list, a selection and a recorded outcome, in any order.
    [history cfgs log s] holds when such a run ends in [s] after recording
    the outcomes [log], in arrival order. *)
Inductive history (cfgs : list CoreConfig)
  : list RequestMetrics -> state -> Prop :=
| hist_init : history cfgs [] (init cfgs)
| hist_writeFlag log r isHealthy s :
    history cfgs log s -> history cfgs log (writeFlag r isHealthy s)
| hist_rebuild log s :
    history cfgs log s -> history cfgs log (rebuildActive s)
| hist_selectCore log s :
    history cfgs log s -> history cfgs log (snd (selectCore s))
| hist_selectCoreByPath log p s :
    history cfgs log s -> history cfgs log (snd (selectCoreByPath p s))
| hist_record log m s :
    history cfgs log s -> history cfgs (log ++ [m]) (pushMetrics m s).

(** The states the service goes through. *)
Definition reachable (cfgs : list CoreConfig) (s : state) : Prop :=
  exists log, history cfgs log s.

(** How many of the selections [sel] picked the backend [r]. *)
Definition timesSelected (r : nat) (sel : list (option nat)) : nat :=
  List.length
    (filter (fun o => match o with
                      | Some x => (x =? r)%nat
                      | None => false
                      end) sel).


(** Sample inputs: the registry after a sweep that found core-api-1 down,
    a request without credentials and a request with a session. *)
Definition core1Down : state :=
  updateCoreStatuses (fun c => negb (name c =? "core-api-1")%string)
                     (init coreConfigs0).

Definition anonymousRequest (p : string) : Request :=
  mkRequest "GET" p (Some (mkSessionData None None [] None)) None None None
            p.

Definition sessionRequest (p uid : string) (lastActivity : Z) : Request :=
  mkRequest "GET" p
            (Some (mkSessionData (Some uid) None [] (Some lastActivity)))
            None None None p.

Definition bearerRequest (p tok : string) : Request :=
  mkRequest "GET" p (Some (mkSessionData None None [] None))
            (Some ("Bearer " ++ tok)%string) None None p.

(** A stand-in for the token library that knows one token per user of the
    user list. *)
Definition sampleJwt : Jwt :=
  {| jwt_sign := fun c => ("token-" ++ claim_userId c)%string;
     jwt_verify := fun tok =>
       if (tok =? "token-1")%string then
         Some (mkJwtPayload "1" "admin" "admin" 0 86400)
       else if (tok =? "token-2")%string then
         Some (mkJwtPayload "2" "user" "user" 0 86400)
       else None |}.

Definition sampleOutcome (i : nat) : RequestMetrics :=
  mkRequestMetrics (Some "id") "GET" "/api/v1/x" "core-api-1" 0 200
                   (Z.of_nat i).

Definition sampleLog : list RequestMetrics := map sampleOutcome (seq 0 1001).

End Run.

(* ================================================================== *)
(** ** Health probes ([checkCoreHealth]) *)

Module Health.

Import ProxyService.

(** What [fetch] comes to within the 5 s the probe allows: a response with
    its status, or an exception (abort on timeout, connection failure). *)
Inductive FetchResult :=
| FetchResponse (status : Z)
| FetchThrown.

(** [response.ok]: the status is in the range 200-299. *)
Definition response_ok (status : Z) : bool :=
  (200 <=? status) && (status <=? 299).

(** [checkCoreHealth]: the probe of [coreConfig.url + coreConfig.healthCheck],
    [fetch] giving what the network answers for a URL. *)
Definition checkCoreHealth (fetch : string -> FetchResult)
           (coreConfig : CoreConfig) : bool :=
  match fetch (url coreConfig ++ healthCheck coreConfig)%string with
  | FetchResponse status => response_ok status
  | FetchThrown => false
  end.

(** A sweep with the network as it is. *)
Definition sweep (fetch : string -> FetchResult) (s : state) : state :=
  updateCoreStatuses (checkCoreHealth fetch) s.

End Health.

(* ================================================================== *)
(** ** [routes/proxy.ts] *)

Module ProxyRoutes.

Import ProxyService.

(** [getCoreStatuses] *)
Definition getCoreStatuses (s : state) : list CoreConfig := coreConfigs s.

(** The body of [GET /proxy/status]. *)
Record StatusBody := mkStatusBody {
  cores : list CoreConfig;
  activeCount : nat;
  totalCount : nat
}.

Definition statusRoute (s : state) : StatusBody :=
  let coreStatuses := getCoreStatuses s in
  mkStatusBody coreStatuses
               (List.length (filter isActive coreStatuses))
               (List.length coreStatuses).

(** [POST /proxy/health-check]: a forced sweep, then the backend list. *)
Definition healthCheckRoute (fetch : string -> Health.FetchResult)
           (s : state) : list CoreConfig * state :=
  let s := Health.sweep fetch s in
  (getCoreStatuses s, s).

(** [acc[k] = (acc[k] || 0) + 1] on an object used as a map from keys to
    counts. The object is a list of entries with distinct keys; the order of
    its keys is not modelled. *)
Fixpoint bump {K} (eqb : K -> K -> bool) (k : K) (acc : list (K * nat))
  : list (K * nat) :=
  match acc with
  | [] => [(k, 1%nat)]
  | (k', n) :: rest =>
      if eqb k' k then (k', S n) :: rest
      else (k', n) :: bump eqb k rest
  end.

(** [acc[k]] *)
Definition count {K} (eqb : K -> K -> bool) (k : K) (acc : list (K * nat))
  : option nat :=
  option_map snd (find (fun kv => eqb (fst kv) k) acc).

(** [metrics.reduce((acc, m) => { acc[m.statusCode] = ...; return acc }, {})] *)
Definition statusCodeCounts (metrics : list RequestMetrics)
  : list (Z * nat) :=
  fold_left (fun acc m => bump Z.eqb (statusCode m) acc) metrics [].

(** [metrics.reduce((acc, m) => { acc[m.targetCore] = ...; return acc }, {})] *)
Definition coreUsage (metrics : list RequestMetrics)
  : list (string * nat) :=
  fold_left (fun acc m => bump String.eqb (targetCore m) acc) metrics [].

(** How many records satisfy a test. *)
Definition occurrences (test : RequestMetrics -> bool)
           (metrics : list RequestMetrics) : nat :=
  List.length (filter test metrics).

(** The sum of the counts of an object of counts. *)
Definition totalCount_of {K} (acc : list (K * nat)) : nat :=
  fold_right (fun kv t => (snd kv + t)%nat) 0%nat acc.

(** The status of the answer the client gets, when the proxy itself made
    it. *)
Definition res_status_of (reply : ClientReply) : option Z :=
  match reply with
  | Sent res => Some (res_status res)
  | Relayed _ => None
  end.

End ProxyRoutes.

(* ================================================================== *)
(** ** [routes/auth.ts] *)

Module AuthRoutes.

Import SessionService Auth.

(** [SessionService.passwords] *)
Definition passwords : list (string * string) :=
  [ ("admin", "$2a$10$XYZ..."); ("user", "$2a$10$ABC...") ].

Definition passwordOf (uname : string) : option string :=
  option_map snd (find (fun kv => (fst kv =? uname)%string) passwords).

(** [SessionService.authenticate] *)
Definition authenticate (uname pwd : string) : option AuthUser :=
  match find (fun u => (username u =? uname)%string) users with
  | None => None
  | Some user =>
      if negb (JS.truthy (passwordOf uname)) then None
      else if (uname =? "admin")%string && (pwd =? "admin123")%string
      then Some user
      else if (uname =? "user")%string && (pwd =? "user123")%string
      then Some user
      else None
  end.

(** The name the session cookie is configured with ([index.ts]). *)
Definition sessionCookieName : string := "flutter-proxy-session".

Inductive LoginReply :=
| LoginBadRequest (message : string)
| LoginUnauthorized
| LoginOk (user : AuthUser) (token : string) (sessionId : string).

Definition loginStatus (r : LoginReply) : Z :=
  match r with
  | LoginBadRequest _ => 400
  | LoginUnauthorized => 401
  | LoginOk _ _ _ => 200
  end.

(** [POST /auth/login]. [validated] is what [loginSchema.validate] makes of
    the body: an error message, or the username and the password; [date] is
    the [new Date()] of [createSession]. *)
Definition login `{Jwt} (validated : string + string * string) (date : Z)
           (sessionID : string) (req : Request) : Request * LoginReply :=
  match validated with
  | inl message => (req, LoginBadRequest message)
  | inr (uname, pwd) =>
      match authenticate uname pwd with
      | None => (req, LoginUnauthorized)
      | Some user =>
          (createSession date user req,
           LoginOk user (generateJWT user) sessionID)
      end
  end.

(** [POST /auth/logout], behind [requireAuth]. [storeError] tells whether
    the session store fails to destroy the session. *)
Definition logout `{Jwt} (timeoutMs now date : Z) (storeError : bool)
           (req : Request) : Request * Response :=
  match requireAuth timeoutMs now date req with
  | Reply req res => (req, res)
  | Next req =>
      if storeError then
        (destroy req,
         json 500 [("error", "Internal Server Error");
                   ("message", "Erro interno do servidor")])
      else
        (destroy req,
         mkResponse 200 [("success", "true");
                         ("message", "Logout realizado com sucesso")]
                    ["connect.sid"])
  end.

Inductive MeReply :=
| MeRejected (res : Response)
| MeUnauthorized
| MeOk (user_id : option string) (user_username user_role : string)
       (user_permissions : option (list string))
       (session_lastActivity : option Z).

(** [GET /auth/me], behind [requireAuth]. *)
Definition me `{Jwt} (timeoutMs now date : Z) (req : Request)
  : Request * MeReply :=
  match requireAuth timeoutMs now date req with
  | Reply req res => (req, MeRejected res)
  | Next req =>
      match currentUser req with
      | None => (req, MeUnauthorized)
      | Some user =>
          (req,
           MeOk (userIdOf user) (userNameOf user) (userRoleOf user)
                (userPermissions user)
                (match req_session req with
                 | Some sess => lastActivity sess
                 | None => None
                 end))
      end
  end.

Inductive RefreshReply :=
| RefreshBadRequest (message : string)
| RefreshUnauthorized
| RefreshOk (token : string).

(** The user object [POST /auth/refresh] rebuilds from a decoded token; a
    token made by [generateJWT] has no permissions, hence [[]]. *)
Definition userOfToken (decoded : JwtPayload) : AuthUser :=
  mkAuthUser (jwt_userId decoded) (jwt_username decoded) (jwt_role decoded)
             [].

(** [POST /auth/refresh]. [validated] is what [refreshSchema.validate] makes
    of the body: an error message or the token. *)
Definition refresh `{Jwt} (validated : string + string) : RefreshReply :=
  match validated with
  | inl message => RefreshBadRequest message
  | inr refreshToken =>
      match verifyJWT refreshToken with
      | None => RefreshUnauthorized
      | Some decoded => RefreshOk (generateJWT (userOfToken decoded))
      end
  end.

Record StatusReply := mkStatusReply {
  isAuthenticated : bool;
  status_user : option (option string * string * string);
  sessionValid : bool
}.

(** [GET /auth/status], [now] being the clock reading of [isSessionValid]. *)
Definition status (timeoutMs now : Z) (req : Request) : StatusReply :=
  mkStatusReply
    (JS.truthy (sessionUserId req)
     || match req_user req with Some _ => true | None => false end)
    (option_map (fun user => (userIdOf user, userNameOf user, userRoleOf user))
                (currentUser req))
    (match req_session req with
     | Some sess =>
         if JS.truthy (userId sess) then isSessionValid timeoutMs now sess
         else false
     | None => false
     end).

(** [app.use(optionalAuth)] and then a route behind [requireAuth]: the two
    middlewares in the order [index.ts] installs them, each with its own
    clock readings. *)
Definition optionalThenRequire `{Jwt} (timeoutMs now1 date1 now2 date2 : Z)
           (req : Request) : Outcome :=
  requireAuth timeoutMs now2 date2 (optionalAuth timeoutMs now1 date1 req).

End AuthRoutes.

(* ================================================================== *)
(** ** [middleware/security.ts] *)

Module Security.

(** [req.headers]: an object from header names to values. *)
Definition Headers := list (string * string).

Definition header_get (k : string) (h : Headers) : option string :=
  option_map snd (find (fun kv => (fst kv =? k)%string) h).

(** [delete req.headers[k]] *)
Definition header_delete (k : string) (h : Headers) : Headers :=
  filter (fun kv => negb (fst kv =? k)%string) h.

(** [req.headers[k] = v] *)
Fixpoint header_set (k v : string) (h : Headers) : Headers :=
  match h with
  | [] => [(k, v)]
  | (k', v') :: rest =>
      if (k' =? k)%string then (k', v) :: rest
      else (k', v') :: header_set k v rest
  end.

(** [sanitizeHeaders], [ip] being [req.ip]. *)
Definition sanitizeHeaders (ip : string) (h : Headers) : Headers :=
  let h := header_delete "x-forwarded-host" h in
  let h := header_delete "x-cluster-client-ip" h in
  let h := header_delete "x-real-ip" h in
  if negb (JS.truthy (header_get "x-forwarded-for" h))
  then header_set "x-forwarded-for" ip h
  else h.

(** [s.includes(p)]: [p] occurs in [s]. *)
Fixpoint includes (s p : string) : bool :=
  String.prefix p s
  || match s with
     | EmptyString => false
     | String _ s' => includes s' p
     end.

(** Case folding of the letters A-Z. *)
Definition lowerAscii (c : ascii) : ascii :=
  let n := nat_of_ascii c in
  if ((65 <=? n) && (n <=? 90))%nat then ascii_of_nat (n + 32) else c.

Fixpoint lower (s : string) : string :=
  match s with
  | EmptyString => EmptyString
  | String c s' => String (lowerAscii c) (lower s')
  end.

(** [/word/i.test(s)] for a pattern that is a lower-case word. *)
Definition testIgnoreCase (word s : string) : bool := includes (lower s) word.

Definition botPatterns : list string :=
  [ "bot"; "crawler"; "spider"; "scraper";
    "googlebot"; "bingbot"; "slurp"; "duckduckbot" ].

(** [botPatterns.some(pattern => pattern.test(userAgent))] with
    [userAgent = req.get('User-Agent') || '']. *)
Definition isBot (userAgentHeader : option string) : bool :=
  let userAgent :=
    match userAgentHeader with
    | Some ua => ua
    | None => ""
    end in
  existsb (fun pattern => testIgnoreCase pattern userAgent) botPatterns.

(** [detectBots]: the 403 it answers, or [None] when it calls [next()]. *)
Definition detectBots (userAgentHeader : option string) : option Response :=
  if isBot userAgentHeader then
    Some (json 403 [("error", "Forbidden");
                    ("message", "Acesso negado para bots")])
  else None.

End Security.

(* ================================================================== *)
(** ** The application ([index.ts]) *)

Module App.

Import ProxyService.

(** A request as it comes in, before any middleware: [req.url] and
    [req.originalUrl] are the URL. *)
Definition inbound (method url : string) (session : option SessionData)
           (authorization : option string) : Request :=
  mkRequest method url session authorization None None url.

(** [req.url = p] *)
Definition setPath (p : string) (req : Request) : Request :=
  mkRequest (req_method req) p (req_session req) (req_authorization req)
            (req_request_id req) (req_user req) (req_originalUrl req).

(** [app.use(mount, handler)]: the path [handler] reads as [req.path] when
    the path of the URL is [url], [None] when the URL is not under the
    mount. The mount path is matched without regard to the case of letters,
    with one optional slash after it, up to a path separator or the end;
    what is matched is stripped and a leading slash is kept. *)
Definition mountedPath (mount url : string) : option string :=
  let n := String.length mount in
  let head := String.substring 0 n url in
  let rest := String.substring n (String.length url - n) url in
  if (Security.lower head =? Security.lower mount)%string then
    match rest with
    | EmptyString => Some "/"
    | String c rest' =>
        if Ascii.eqb c "/" then
          match rest' with
          | EmptyString => Some "/"
          | String c' _ => if Ascii.eqb c' "/" then Some rest' else Some rest
          end
        else None
    end
  else None.

(** The selection of [app.use('/api', ProxyService.intelligentRouter())]
    for a request as it comes in. *)
Definition apiSelect (random : Q) (checkCoreHealth : CoreConfig -> bool)
           (req : Request) (s : state) : option (option nat * state) :=
  match mountedPath "/api" (req_path req) with
  | Some p => Some (routeSelect random checkCoreHealth (setPath p req) s)
  | None => None
  end.

(** [app.use('/api', ProxyService.intelligentRouter())] on a request as it
    comes in. *)
Definition apiRouter (random : Q) (checkCoreHealth : CoreConfig -> bool)
           (uuid : string) (backend : BackendResult)
           (startTime now date : Z) (req : Request) (s : state)
  : option (ClientReply * state) :=
  match mountedPath "/api" (req_path req) with
  | Some p =>
      Some (intelligentRouter random checkCoreHealth uuid backend startTime
                              now date (setPath p req) s)
  | None => None
  end.

End App.

(* ================================================================== *)
(** ** Sample requests *)

Module Samples.

(** A request that carries both a session of the administrator, last active
    at time 0, and the administrator's bearer token. *)
Definition sessionAndTokenRequest : Request :=
  mkRequest "GET" "/proxy/status"
            (Some (mkSessionData (Some "1") (Some "admin") [] (Some 0)))
            (Some "Bearer token-1") None None "/proxy/status".

End Samples.

(* ================================================================== *)
(** * Properties *)

(** Case analysis on every condition the goal branches on. *)
Ltac case_conditions :=
  repeat match goal with
         | |- context [if ?b then _ else _] => destruct b
         end.

(* ------------------------------------------------------------------ *)
(** ** The hash of user-affinity routing *)

Section Hash.

Import ProxyService.

Lemma to_int32_range (z : Z) : - 2 ^ 31 <= JS.to_int32 z < 2 ^ 31.
Proof.
  unfold JS.to_int32.
  pose proof (Z.mod_pos_bound (z + 2 ^ 31) (2 ^ 32) ltac:(lia)).
  lia.
Qed.

Lemma to_int32_small (z : Z) :
  - 2 ^ 31 <= z < 2 ^ 31 -> JS.to_int32 z = z.
Proof.
  intros Hz. unfold JS.to_int32.
  rewrite Z.mod_small by lia. lia.
Qed.

Lemma band_diag (z : Z) : JS.band z z = JS.to_int32 z.
Proof. unfold JS.band. apply Z.land_diag. Qed.

Lemma hashStep_range (hash char : Z) :
  - 2 ^ 31 <= hashStep hash char < 2 ^ 31.
Proof. unfold hashStep. rewrite band_diag. apply to_int32_range. Qed.

Lemma fold_hashStep_range (str : list Z) :
  forall hash, - 2 ^ 31 <= hash < 2 ^ 31 ->
               - 2 ^ 31 <= fold_left hashStep str hash < 2 ^ 31.
Proof.
  induction str as [|c str IH]; intros hash Hh; simpl.
  - exact Hh.
  - apply IH, hashStep_range.
Qed.

Lemma simpleHashCodes_range (str : list Z) :
  0 <= simpleHashCodes str <= 2 ^ 31.
Proof.
  unfold simpleHashCodes.
  pose proof (fold_hashStep_range str 0 ltac:(lia)).
  lia.
Qed.

(** On operands that stay within 32 bits a step is [31 * hash + char]. *)
Lemma hashStep_small (hash char : Z) :
  - 2 ^ 31 <= hash < 2 ^ 31 ->
  - 2 ^ 31 <= 32 * hash < 2 ^ 31 ->
  - 2 ^ 31 <= 31 * hash + char < 2 ^ 31 ->
  hashStep hash char = 31 * hash + char.
Proof.
  intros H1 H2 H3. unfold hashStep. rewrite band_diag.
  unfold JS.shl. rewrite (to_int32_small hash) by exact H1.
  change (Z.land 5 31) with 5. rewrite Z.shiftl_mul_pow2 by lia.
  change (2 ^ 5) with 32.
  rewrite (to_int32_small (hash * 32)) by lia.
  rewrite to_int32_small; lia.
Qed.

Example simpleHash_1 : simpleHash "1" = 49.
Proof. reflexivity. Qed.

Example simpleHash_2 : simpleHash "2" = 50.
Proof. reflexivity. Qed.

Example simpleHash_admin : simpleHash "admin" = 92668751.
Proof. vm_compute. reflexivity. Qed.

Lemma selectCoreByUser_some (userId : string) (s : state) :
  activeConfigs s <> [] ->
  exists r, selectCoreByUser userId s = Some r /\ In r (activeConfigs s).
Proof.
  intros Hne. unfold selectCoreByUser.
  destruct (activeConfigs s) as [|a l] eqn:E; [contradiction|].
  change (List.length (a :: l) =? 0)%nat with false. cbv iota.
  set (n := Z.of_nat (List.length (a :: l))).
  assert (Hn : 0 < n) by (subst n; simpl List.length; lia).
  pose proof (simpleHashCodes_range (JS.charCodes userId)) as Hh.
  fold (simpleHash userId) in Hh.
  pose proof (Z.rem_bound_pos (simpleHash userId) n ltac:(lia) Hn) as Hr.
  unfold JS.index, JS.rem.
  destruct (Z.ltb_spec (Z.rem (simpleHash userId) n) 0) as [Hlt|_]; [lia|].
  destruct (nth_error (a :: l) (Z.to_nat (Z.rem (simpleHash userId) n)))
    as [r|] eqn:Hnth.
  - exists r. split; [reflexivity|]. eapply nth_error_In; eassumption.
  - apply nth_error_None in Hnth. subst n. lia.
Qed.

(** C10. For every string [userId], [simpleHash userId] is the absolute value
    of a signed 32-bit integer, hence non-negative (and at most 2^31; the
    same holds for every sequence of code units); so for a non-empty active
    list of length [n] the index [simpleHash userId % n] lies in [0, n) and
    [selectCoreByUser] returns a backend of the active list, never null. *)
Theorem simpleHash_nonneg_index_in_range (userId : string) (s : state) :
  (exists h, - 2 ^ 31 <= h < 2 ^ 31 /\ simpleHash userId = Z.abs h) /\
  0 <= simpleHash userId <= 2 ^ 31 /\
  (forall codes, 0 <= simpleHashCodes codes <= 2 ^ 31) /\
  (activeConfigs s <> [] ->
   let n := Z.of_nat (List.length (activeConfigs s)) in
   0 <= JS.rem (simpleHash userId) n < n /\
   exists r, selectCoreByUser userId s = Some r /\ In r (activeConfigs s)).
Proof.
  pose proof (simpleHashCodes_range (JS.charCodes userId)) as Hh.
  fold (simpleHash userId) in Hh.
  repeat split; try apply Hh; try apply simpleHashCodes_range.
  - exists (fold_left hashStep (JS.charCodes userId) 0).
    split; [apply fold_hashStep_range; lia | reflexivity].
  - apply Z.rem_bound_pos; [lia|].
    destruct (activeConfigs s); [contradiction | simpl List.length; lia].
  - apply Z.rem_bound_pos; [lia|].
    destruct (activeConfigs s); [contradiction | simpl List.length; lia].
  - apply selectCoreByUser_some; assumption.
Qed.

Lemma simpleHash_nonneg_index_in_range_witness :
  exists r, selectCoreByUser "1" (init coreConfigs0) = Some r /\
            In r (activeConfigs (init coreConfigs0)).
Proof.
  apply (simpleHash_nonneg_index_in_range "1" (init coreConfigs0)).
  simpl. discriminate.
Defined.

End Hash.

(* ------------------------------------------------------------------ *)
(** ** The registry and the selector *)

Section Registry.

Import ProxyService Run.


Lemma refActive_lt (cfgs : list CoreConfig) (r : nat) :
  refActive cfgs r = true -> (r < List.length cfgs)%nat.
Proof.
  unfold refActive, deref. intros H.
  apply nth_error_Some. destruct (nth_error cfgs r); congruence.
Qed.

Lemma filterActive_In (cfgs : list CoreConfig) (r : nat) :
  In r (filterActive cfgs) <-> refActive cfgs r = true.
Proof.
  unfold filterActive. rewrite filter_In, in_seq. split.
  - tauto.
  - intros H. pose proof (refActive_lt _ _ H). split; [lia | exact H].
Qed.

Lemma filterActive_NoDup (cfgs : list CoreConfig) :
  NoDup (filterActive cfgs).
Proof. unfold filterActive. apply NoDup_filter, seq_NoDup. Qed.

Lemma selectCore_registry (s : state) :
  coreConfigs (snd (selectCore s)) = coreConfigs s /\
  activeConfigs (snd (selectCore s)) = activeConfigs s /\
  requestMetrics (snd (selectCore s)) = requestMetrics s.
Proof.
  unfold selectCore.
  destruct (List.length (activeConfigs s) =? 0)%nat; simpl; auto.
Qed.

Lemma orSelectCore_registry (found : option nat) (s : state) :
  coreConfigs (snd (orSelectCore found s)) = coreConfigs s /\
  activeConfigs (snd (orSelectCore found s)) = activeConfigs s /\
  requestMetrics (snd (orSelectCore found s)) = requestMetrics s.
Proof.
  destruct found; simpl; auto using selectCore_registry.
Qed.

Lemma selectCoreByPath_registry (p : string) (s : state) :
  coreConfigs (snd (selectCoreByPath p s)) = coreConfigs s /\
  activeConfigs (snd (selectCoreByPath p s)) = activeConfigs s /\
  requestMetrics (snd (selectCoreByPath p s)) = requestMetrics s.
Proof.
  unfold selectCoreByPath.
  destruct (List.length (activeConfigs s) =? 0)%nat; simpl; auto.
  case_conditions; auto using selectCore_registry, orSelectCore_registry.
Qed.

Lemma setActive_length (r : nat) (b : bool) (cfgs : list CoreConfig) :
  List.length (setActive r b cfgs) = List.length cfgs.
Proof.
  revert r. induction cfgs as [|c cfgs IH]; intros r; [reflexivity|].
  destruct r; cbn [setActive List.length]; [reflexivity|].
  rewrite IH. reflexivity.
Qed.

(** Writing the flag of the backend that comes after [pre]. *)
Lemma setActive_app (pre post : list CoreConfig) (c : CoreConfig) (b : bool) :
  setActive (List.length pre) b (pre ++ c :: post)
  = pre ++ mkCoreConfig (name c) (url c) (healthCheck c) (weight c) b :: post.
Proof.
  induction pre as [|d pre IH]; [reflexivity|].
  cbn [List.length app setActive]. rewrite IH. reflexivity.
Qed.

Lemma probeLoop_fields check (todo : nat) :
  forall r s,
    activeConfigs (probeLoop check r todo s) = activeConfigs s /\
    requestMetrics (probeLoop check r todo s) = requestMetrics s /\
    currentCoreIndex (probeLoop check r todo s) = currentCoreIndex s.
Proof.
  induction todo as [|todo IH]; intros r s; cbn [probeLoop]; [auto|].
  destruct (deref (coreConfigs s) r) as [c|]; [|auto].
  destruct (IH (S r) (writeFlag r (check c) s)) as (-> & -> & ->). auto.
Qed.

Lemma probeLoop_coreConfigs check (post : list CoreConfig) :
  forall pre s,
    coreConfigs s = pre ++ post ->
    coreConfigs (probeLoop check (List.length pre) (List.length post) s)
    = pre ++ map (fun config =>
                    mkCoreConfig (name config) (url config)
                                 (healthCheck config) (weight config)
                                 (check config)) post.
Proof.
  induction post as [|c post IH]; intros pre s E; cbn [List.length probeLoop map].
  - exact E.
  - unfold deref. rewrite E, nth_error_app2, Nat.sub_diag by lia.
    cbn [nth_error].
    set (c' := mkCoreConfig (name c) (url c) (healthCheck c) (weight c)
                            (check c)).
    replace (S (List.length pre)) with (List.length (pre ++ [c']))
      by (rewrite length_app; cbn [List.length]; lia).
    rewrite (IH (pre ++ [c'])).
    + rewrite <- app_assoc. reflexivity.
    + cbn [writeFlag coreConfigs]. rewrite E, setActive_app.
      rewrite <- app_assoc. reflexivity.
Qed.

(** The sweep is its loop, one flag written after the other, followed by the
    rebuild of the list. *)
Lemma sweep_in_steps check (s : state) :
  rebuildActive (probeLoop check 0 (List.length (coreConfigs s)) s)
  = updateCoreStatuses check s.
Proof.
  unfold rebuildActive, updateCoreStatuses.
  destruct (probeLoop_fields check (List.length (coreConfigs s)) 0 s)
    as (_ & -> & ->).
  pose proof (probeLoop_coreConfigs check (coreConfigs s) [] s eq_refl)
    as Hcfg.
  cbn [List.length app] in Hcfg. rewrite Hcfg. reflexivity.
Qed.

Lemma history_probeLoop cfgs log check (todo : nat) :
  forall r s,
    history cfgs log s -> history cfgs log (probeLoop check r todo s).
Proof.
  induction todo as [|todo IH]; intros r s H; cbn [probeLoop]; [exact H|].
  destruct (deref (coreConfigs s) r) as [c|]; [|exact H].
  apply IH. constructor. exact H.
Qed.

(** A sweep that nothing interrupts is a run. *)
Lemma history_sweep cfgs log check (s : state) :
  history cfgs log s -> history cfgs log (updateCoreStatuses check s).
Proof.
  intros H. rewrite <- sweep_in_steps.
  apply hist_rebuild, history_probeLoop, H.
Qed.

Lemma reach_init (cfgs : list CoreConfig) : reachable cfgs (init cfgs).
Proof. exists []. constructor. Qed.


Lemma reach_sweep (cfgs : list CoreConfig) check (s : state) :
  reachable cfgs s -> reachable cfgs (updateCoreStatuses check s).
Proof. intros [log H]. exists log. apply history_sweep. exact H. Qed.

Lemma reach_selectCore (cfgs : list CoreConfig) (s : state) :
  reachable cfgs s -> reachable cfgs (snd (selectCore s)).
Proof. intros [log H]. exists log. constructor. exact H. Qed.

Lemma reach_selectCoreByPath (cfgs : list CoreConfig) p (s : state) :
  reachable cfgs s -> reachable cfgs (snd (selectCoreByPath p s)).
Proof. intros [log H]. exists log. constructor. exact H. Qed.

Lemma reach_record (cfgs : list CoreConfig) m (s : state) :
  reachable cfgs s -> reachable cfgs (pushMetrics m s).
Proof. intros [log H]. exists (log ++ [m]). constructor. exact H. Qed.







Lemma consistent_active (s : state) (r : nat) :
  consistent s ->
  (In r (activeConfigs s) <-> refActive (coreConfigs s) r = true).
Proof. unfold consistent. intros ->. apply filterActive_In. Qed.

Lemma consistent_nonempty (s : state) :
  consistent s -> someHealthy s -> activeConfigs s <> [].
Proof.
  intros Hc [r Hr] E. apply (consistent_active s r Hc) in Hr.
  rewrite E in Hr. exact Hr.
Qed.

(** The round-robin pick: the element of the active list at
    [currentCoreIndex % length], and the counter moves on by one. *)
Lemma selectCore_spec (s : state) :
  activeConfigs s <> [] ->
  exists r,
    selectCore s =
      (Some r, mkState (coreConfigs s) (activeConfigs s) (requestMetrics s)
                       (S (currentCoreIndex s))) /\
    nth_error (activeConfigs s)
              (currentCoreIndex s mod List.length (activeConfigs s))%nat
      = Some r /\
    In r (activeConfigs s).
Proof.
  intros Hne. unfold selectCore.
  destruct (activeConfigs s) as [|a l] eqn:E; [contradiction|].
  change (List.length (a :: l) =? 0)%nat with false. cbv iota.
  destruct (nth_error (a :: l)
              (currentCoreIndex s mod List.length (a :: l))%nat)
    as [r|] eqn:Hnth.
  - exists r. repeat split. eapply nth_error_In; eassumption.
  - apply nth_error_None in Hnth.
    pose proof (Nat.mod_upper_bound (currentCoreIndex s)
                  (List.length (a :: l)) ltac:(simpl; lia)).
    lia.
Qed.

Lemma selectCore_empty (s : state) :
  activeConfigs s = [] -> selectCore s = (None, s).
Proof. unfold selectCore. intros ->. reflexivity. Qed.

Lemma findByName_some (n : string) (s : state) (r : nat) :
  findByName n s = Some r ->
  In r (activeConfigs s) /\ refName (coreConfigs s) r = n.
Proof.
  unfold findByName. intros H. apply find_some in H.
  destruct H as [Hin Hn]. apply String.eqb_eq in Hn. auto.
Qed.

Lemma findByName_none (n : string) (s : state) :
  findByName n s = None ->
  forall r, In r (activeConfigs s) -> refName (coreConfigs s) r <> n.
Proof.
  unfold findByName. intros H r Hin E.
  pose proof (find_none _ _ H r Hin) as Hf. simpl in Hf.
  apply String.eqb_neq in Hf. contradiction.
Qed.

Lemma findByName_found (n : string) (s : state) (r : nat) :
  In r (activeConfigs s) -> refName (coreConfigs s) r = n ->
  exists r', findByName n s = Some r'.
Proof.
  intros Hin Hn. destruct (findByName n s) as [r'|] eqn:E; [eauto|].
  exfalso. exact (findByName_none n s E r Hin Hn).
Qed.

(** Whatever [selectCoreByPath] returns is a member of the active list. *)
Lemma selectCoreByPath_some (p : string) (s : state) :
  activeConfigs s <> [] ->
  exists r, fst (selectCoreByPath p s) = Some r /\ In r (activeConfigs s).
Proof.
  intros Hne.
  assert (Hrr : exists r, fst (selectCore s) = Some r /\
                          In r (activeConfigs s)).
  { destruct (selectCore_spec s Hne) as (r & -> & _ & Hin).
    exists r. split; [reflexivity | exact Hin]. }
  assert (Hor : forall n, exists r,
               fst (orSelectCore (findByName n s) s) = Some r /\
               In r (activeConfigs s)).
  { intros n. destruct (findByName n s) as [r|] eqn:E; simpl.
    - exists r. split; [reflexivity|]. eapply findByName_some; eassumption.
    - exact Hrr. }
  unfold selectCoreByPath.
  destruct (activeConfigs s) as [|a l] eqn:E; [contradiction|].
  change (List.length (a :: l) =? 0)%nat with false. cbv iota.
  rewrite <- E in *.
  case_conditions; auto.
Qed.

Lemma reachable_opportunisticSweep cfgs random check (s : state) :
  reachable cfgs s -> reachable cfgs (opportunisticSweep random check s).
Proof.
  intros H. unfold opportunisticSweep.
  destruct (sweepDrawn random); [apply reach_sweep|]; exact H.
Qed.

(** Without a session user id the router selects by path. *)
Lemma routeSelect_no_identity random check (req : Request) (s : state) :
  JS.truthy (Auth.sessionUserId req) = false ->
  routeSelect random check req s =
    selectCoreByPath (req_path req) (opportunisticSweep random check s).
Proof.
  unfold routeSelect, Auth.sessionUserId. intros H.
  destruct (req_session req) as [sess|]; [|reflexivity].
  destruct (userId sess) as [uid|]; [|reflexivity].
  rewrite H. reflexivity.
Qed.

(** With a session user id the router selects by user, whatever the path. *)
Lemma routeSelect_identity random check (req : Request) (s : state) uid :
  Auth.sessionUserId req = Some uid ->
  JS.truthy (Some uid) = true ->
  routeSelect random check req s =
    (selectCoreByUser uid (opportunisticSweep random check s),
     opportunisticSweep random check s).
Proof.
  unfold routeSelect, Auth.sessionUserId. intros H Ht.
  destruct (req_session req) as [sess|]; [|discriminate].
  rewrite H, Ht. reflexivity.
Qed.

Lemma routeSelect_cases random check (req : Request) (s : state) :
  let s1 := opportunisticSweep random check s in
  (exists uid, routeSelect random check req s = (selectCoreByUser uid s1, s1))
  \/ routeSelect random check req s = selectCoreByPath (req_path req) s1.
Proof.
  intros s1.
  destruct (JS.truthy (Auth.sessionUserId req)) eqn:Ht.
  - left. destruct (Auth.sessionUserId req) as [uid|] eqn:E;
      [|discriminate].
    exists uid. apply routeSelect_identity; assumption.
  - right. apply routeSelect_no_identity; assumption.
Qed.

(** The registry seen after a selection of the router is the one seen after
    its opportunistic sweep. *)
Lemma routeSelect_registry random check (req : Request) (s : state) :
  let s1 := opportunisticSweep random check s in
  let s2 := snd (routeSelect random check req s) in
  coreConfigs s2 = coreConfigs s1 /\
  activeConfigs s2 = activeConfigs s1 /\
  requestMetrics s2 = requestMetrics s1.
Proof.
  intros s1 s2. subst s2.
  destruct (routeSelect_cases random check req s) as [[uid ->] | ->].
  - simpl. auto.
  - apply selectCoreByPath_registry.
Qed.








(** C1, as stated, fails, in two ways. With the three backends healthy, a
    request to /api/v1/x whose session carries the user id "1" is routed by
    the hash of the user id to core-api-2. And a request to /api/v1/x that
    carries no identity is routed round-robin, the router reading its path
    without /api: the second such request goes to core-api-2. *)
Lemma path_prefix_not_before_user_affinity :
  ~ (forall random check req s,
        reachable coreConfigs0 s ->
        JS.startsWith (req_path req) "/api/v1" = true ->
        (exists r,
            In r (activeConfigs (opportunisticSweep random check s)) /\
            refName (coreConfigs (opportunisticSweep random check s)) r
              = "core-api-1" /\
            refActive (coreConfigs (opportunisticSweep random check s)) r
              = true) ->
        exists r s',
          App.apiSelect random check req s = Some (Some r, s') /\
          refName (coreConfigs (opportunisticSweep random check s)) r
            = "core-api-1") /\
  ~ (forall random check req s,
        JS.truthy (Auth.sessionUserId req) = false ->
        reachable coreConfigs0 s ->
        JS.startsWith (req_path req) "/api/v1" = true ->
        (exists r,
            In r (activeConfigs (opportunisticSweep random check s)) /\
            refName (coreConfigs (opportunisticSweep random check s)) r
              = "core-api-1" /\
            refActive (coreConfigs (opportunisticSweep random check s)) r
              = true) ->
        exists r s',
          App.apiSelect random check req s = Some (Some r, s') /\
          refName (coreConfigs (opportunisticSweep random check s)) r
            = "core-api-1").
Proof.
  split; intros claim.
  - destruct (claim (1 # 2)%Q (fun _ => true)
                    (sessionRequest "/api/v1/x" "1" 0)
                    (init coreConfigs0))
      as (r & s' & Hsel & Hname).
    + apply reach_init.
    + reflexivity.
    + exists 0%nat. repeat split. left. reflexivity.
    + vm_compute in Hsel. injection Hsel as <- _. vm_compute in Hname.
      discriminate.
  - destruct (claim (1 # 2)%Q (fun _ => true)
                    (anonymousRequest "/api/v1/x")
                    (snd (selectCore (init coreConfigs0))))
      as (r & s' & Hsel & Hname).
    + reflexivity.
    + apply reach_selectCore, reach_init.
    + reflexivity.
    + exists 0%nat. repeat split. left. reflexivity.
    + vm_compute in Hsel. injection Hsel as <- _. vm_compute in Hname.
      discriminate.
Qed.

(** C1, amended. For every request whose session carries a user id the
    router selects by user affinity, whatever the path, also when the path
    starts with /api/v1 and core-api-1 is healthy: the user-affinity
    strategy is evaluated before the path-prefix strategy. The path-prefix
    strategy is consulted only for a request whose session carries no user
    id; an identity carried only by a bearer token does not count. *)
Theorem user_affinity_before_path_prefix
        random check (req : Request) (s : state) :
  (forall uid,
      Auth.sessionUserId req = Some uid -> JS.truthy (Some uid) = true ->
      (forall p,
          routeSelect random check (App.setPath p req) s
          = (selectCoreByUser uid (opportunisticSweep random check s),
             opportunisticSweep random check s)) /\
      (forall selection,
          App.apiSelect random check req s = Some selection ->
          selection
          = (selectCoreByUser uid (opportunisticSweep random check s),
             opportunisticSweep random check s))) /\
  (JS.truthy (Auth.sessionUserId req) = false ->
   forall p,
     routeSelect random check (App.setPath p req) s
     = selectCoreByPath p (opportunisticSweep random check s)).
Proof.
  split.
  - intros uid Huid Ht.
    assert (Hp : forall p,
               routeSelect random check (App.setPath p req) s
               = (selectCoreByUser uid (opportunisticSweep random check s),
                  opportunisticSweep random check s)).
    { intros p. apply routeSelect_identity; assumption. }
    split; [exact Hp|].
    intros selection. unfold App.apiSelect.
    destruct (App.mountedPath "/api" (req_path req)) as [p|]; [|discriminate].
    intros H. injection H as <-. apply Hp.
  - intros Hid p.
    apply (routeSelect_no_identity random check (App.setPath p req) s Hid).
Qed.

Lemma user_affinity_before_path_prefix_witness :
  App.apiSelect (1 # 2) (fun _ => true) (sessionRequest "/api/v1/x" "1" 0)
                (init coreConfigs0)
  = Some (selectCoreByUser "1" (opportunisticSweep (1 # 2) (fun _ => true)
                                                   (init coreConfigs0)),
          opportunisticSweep (1 # 2) (fun _ => true) (init coreConfigs0)).
Proof.
  destruct (user_affinity_before_path_prefix
              (1 # 2)%Q (fun _ => true) (sessionRequest "/api/v1/x" "1" 0)
              (init coreConfigs0)) as [Huser _].
  destruct (Huser "1" eq_refl eq_refl) as [_ Hmount].
  assert (E : App.apiSelect (1 # 2) (fun _ => true)
                            (sessionRequest "/api/v1/x" "1" 0)
                            (init coreConfigs0)
              = Some (routeSelect (1 # 2) (fun _ => true)
                                  (App.setPath "/v1/x"
                                     (sessionRequest "/api/v1/x" "1" 0))
                                  (init coreConfigs0)))
    by reflexivity.
  rewrite E. exact (f_equal Some (Hmount _ E)).
Defined.

End Registry.

(* ------------------------------------------------------------------ *)
(** ** The router and the forwarding engine *)

Section Forwarding.

Import ProxyService Run.

Lemma opportunisticSweep_metrics random check (s : state) :
  requestMetrics (opportunisticSweep random check s) = requestMetrics s.
Proof. unfold opportunisticSweep. destruct (sweepDrawn random); reflexivity. Qed.

Lemma selectCoreByPath_empty (p : string) (s : state) :
  activeConfigs s = [] -> selectCoreByPath p s = (None, s).
Proof. unfold selectCoreByPath. intros ->. reflexivity. Qed.

Lemma selectCoreByUser_empty (uid : string) (s : state) :
  activeConfigs s = [] -> selectCoreByUser uid s = None.
Proof. unfold selectCoreByUser. intros ->. reflexivity. Qed.

Lemma routeSelect_empty random check (req : Request) (s : state) :
  activeConfigs (opportunisticSweep random check s) = [] ->
  routeSelect random check req s
    = (None, opportunisticSweep random check s).
Proof.
  intros E.
  destruct (routeSelect_cases random check req s) as [[uid ->] | ->].
  - rewrite selectCoreByUser_empty by exact E. reflexivity.
  - apply selectCoreByPath_empty, E.
Qed.

Lemma not_someHealthy_empty (s : state) :
  consistent s -> ~ someHealthy s -> activeConfigs s = [].
Proof.
  intros Hc Hno. destruct (activeConfigs s) as [|r l] eqn:E; [reflexivity|].
  exfalso. apply Hno. exists r. apply consistent_active; [exact Hc|].
  rewrite E. left. reflexivity.
Qed.

(** C9. When the healthy set, the list [activeConfigs] the selector reads,
    is empty at the moment the router selects (that is, after its
    opportunistic sweep, if one was drawn), the selector returns no backend,
    the client receives the 503 Service Unavailable response, the backend
    exchange plays no part in the result (forwarding is not attempted) and
    the metrics store is left as it was; so it is for the request as it
    comes in under the mount /api. *)
Theorem empty_healthy_set_gives_503
        (s : state) random check uuid backend
        (startTime now date : Z) (req : Request) :
  activeConfigs (opportunisticSweep random check s) = [] ->
  fst (routeSelect random check req s) = None /\
  intelligentRouter random check uuid backend startTime now date req s
    = (Sent (json 503 [("error", "Service Unavailable");
                       ("message", "Nenhum core disponível no momento")]),
       opportunisticSweep random check s) /\
  requestMetrics
    (snd (intelligentRouter random check uuid backend startTime now date
                            req s))
    = requestMetrics s /\
  (forall uuid' backend' startTime' now' date',
      intelligentRouter random check uuid' backend' startTime' now' date'
                        req s
      = intelligentRouter random check uuid backend startTime now date
                          req s) /\
  (forall p,
      App.mountedPath "/api" (req_path req) = Some p ->
      App.apiRouter random check uuid backend startTime now date req s
      = Some (Sent (json 503
                         [("error", "Service Unavailable");
                          ("message", "Nenhum core disponível no momento")]),
              opportunisticSweep random check s)).
Proof.
  intros E.
  assert (Hrouter : forall req uuid backend startTime now date,
             intelligentRouter random check uuid backend startTime now date
                               req s
             = (Sent (json 503
                           [("error", "Service Unavailable");
                            ("message", "Nenhum core disponível no momento")]),
                opportunisticSweep random check s)).
  { intros. unfold intelligentRouter.
    rewrite routeSelect_empty by exact E. reflexivity. }
  split; [rewrite routeSelect_empty by exact E; reflexivity|].
  split; [apply Hrouter|].
  split; [rewrite Hrouter; apply opportunisticSweep_metrics|].
  split; [intros; rewrite !Hrouter; reflexivity|].
  intros p Hp. unfold App.apiRouter. rewrite Hp, Hrouter. reflexivity.
Qed.

Lemma empty_healthy_set_gives_503_witness :
  fst (routeSelect (1 # 20) (fun _ => false) (anonymousRequest "/api/v1/x")
                   (init coreConfigs0)) = None.
Proof.
  apply (empty_healthy_set_gives_503
           (init coreConfigs0) (1 # 20)%Q (fun _ => false)
           "id" (BackendResponse (Some 200)) 0 0 0
           (anonymousRequest "/api/v1/x")).
  reflexivity.
Defined.

(** C2, evaluated on the code. When the exchange ends in a timeout or a
    connection failure the client receives the 502 Bad Gateway response with
    the correlation id, and the metrics store is left exactly as it was: the
    failure handler records no outcome. *)
Theorem forwarding_failure_not_recorded
        (targetCore : nat) (uuid msg : string) (startTime now date : Z)
        (req : Request) (s : state) :
  let result :=
    proxyMiddleware targetCore uuid (BackendError msg) startTime now date
                    req s in
  (exists res,
      fst result = Sent res /\
      res_status res = 502 /\
      body_field "error" res = Some "Bad Gateway" /\
      body_field "requestId" res = Some uuid) /\
  requestMetrics (snd result) = requestMetrics s /\
  snd result = s.
Proof.
  simpl. split; [|split; reflexivity].
  eexists. split; [reflexivity|]. repeat split.
Qed.

Lemma pushMetrics_last (m : RequestMetrics) (s : state) :
  exists pre, requestMetrics (pushMetrics m s) = pre ++ [m].
Proof.
  unfold pushMetrics. simpl requestMetrics.
  match goal with
  | |- context [if ?b then _ else _] => destruct b
  end.
  - unfold JS.slice_last. rewrite length_app. simpl List.length.
    rewrite skipn_app.
    replace (List.length (requestMetrics s) + 1 - 1000
             - List.length (requestMetrics s))%nat with 0%nat by lia.
    eexists. reflexivity.
  - eexists. reflexivity.
Qed.

(** The same request answered by the backend is recorded. *)
Lemma forwarding_response_recorded
      (targetCore : nat) (uuid : string) (code : option Z)
      (startTime now date : Z) (req : Request) (s : state) :
  exists m,
    In m (requestMetrics
            (snd (proxyMiddleware targetCore uuid (BackendResponse code)
                                  startTime now date req s))) /\
    requestId m = Some uuid /\
    statusCode m = match code with Some c => c | None => 0 end.
Proof.
  exists (outcomeOf targetCore code startTime now date
                    (onProxyReq uuid (restoreUrl req)) s).
  split; [|split; reflexivity].
  destruct (pushMetrics_last
              (outcomeOf targetCore code startTime now date
                         (onProxyReq uuid (restoreUrl req)) s) s)
    as [pre Hpre].
  unfold proxyMiddleware, onProxyRes, snd. rewrite Hpre.
  apply in_or_app. right. left. reflexivity.
Qed.

(** C4, evaluated on the code. The [responseTime] recorded for an exchange
    is the difference of two clock readings both taken inside the response
    handler, after the backend's response has arrived: it does not depend on
    when the request was dispatched, and it is 0 whenever the handler runs
    within one millisecond. *)
Theorem responseTime_is_handler_time
        (targetCore : nat) (code : option Z) (startTime now date : Z)
        (req : Request) (s : state) :
  let recorded :=
    last (requestMetrics
            (onProxyRes targetCore code startTime now date req s))
         (mkRequestMetrics None "" "" "" (-1) (-1) (-1)) in
  responseTime recorded = now - startTime /\
  (now = startTime -> responseTime recorded = 0).
Proof.
  unfold onProxyRes.
  destruct (pushMetrics_last
              (outcomeOf targetCore code startTime now date req s) s)
    as [pre Hpre].
  rewrite Hpre, last_last. simpl.
  split; [reflexivity | lia].
Qed.

Lemma responseTime_is_handler_time_witness :
  responseTime
    (last (requestMetrics
             (onProxyRes 0 (Some 200) 5000 5000 5000
                         (onProxyReq "id" (anonymousRequest "/api/v1/x"))
                         (init coreConfigs0)))
          (mkRequestMetrics None "" "" "" (-1) (-1) (-1))) = 0.
Proof.
  apply (responseTime_is_handler_time
           0 (Some 200) 5000 5000 5000
           (onProxyReq "id" (anonymousRequest "/api/v1/x"))
           (init coreConfigs0)).
  reflexivity.
Defined.

End Forwarding.

(* ------------------------------------------------------------------ *)
(** ** The metrics store *)

Section Metrics.

Import ProxyService Run.

Variable A : Type.

Lemma slice_last_short (n : nat) (l : list A) :
  (List.length l <= n)%nat -> JS.slice_last n l = l.
Proof.
  intros H. unfold JS.slice_last.
  replace (List.length l - n)%nat with 0%nat by lia. reflexivity.
Qed.

Lemma slice_last_length (n : nat) (l : list A) :
  List.length (JS.slice_last n l) = Nat.min (List.length l) n.
Proof. unfold JS.slice_last. rewrite length_skipn. lia. Qed.

Lemma slice_last_suffix (n : nat) (l : list A) :
  firstn (List.length l - n) l ++ JS.slice_last n l = l.
Proof. unfold JS.slice_last. apply firstn_skipn. Qed.

(** Trimming before appending loses nothing the final trim would keep. *)
Lemma slice_last_app (n : nat) (l x : list A) :
  JS.slice_last n (JS.slice_last n l ++ x) = JS.slice_last n (l ++ x).
Proof.
  destruct (Nat.le_gt_cases (List.length l) n) as [Hle|Hgt].
  - rewrite (slice_last_short n l) by exact Hle. reflexivity.
  - unfold JS.slice_last.
    rewrite !length_app, length_skipn.
    set (k := (List.length l - n)%nat).
    replace (List.length l - k + List.length x - n)%nat
      with (List.length x) by lia.
    replace (List.length l + List.length x - n)%nat
      with (List.length x + k)%nat by lia.
    rewrite <- skipn_skipn. f_equal.
    rewrite skipn_app.
    replace (k - List.length l)%nat with 0%nat by lia. reflexivity.
Qed.

End Metrics.

Section MetricsStore.

Import ProxyService Run.

Lemma pushMetrics_kept (m : RequestMetrics) (s : state) :
  requestMetrics (pushMetrics m s)
    = JS.slice_last 1000 (requestMetrics s ++ [m]).
Proof.
  unfold pushMetrics. simpl requestMetrics.
  destruct (Nat.ltb_spec 1000 (List.length (requestMetrics s ++ [m])))
    as [Hgt|Hle].
  - reflexivity.
  - symmetry. apply slice_last_short. exact Hle.
Qed.

(** The store holds the last 1000 of the outcomes recorded so far. *)
Lemma history_metrics (cfgs : list CoreConfig) log (s : state) :
  history cfgs log s -> requestMetrics s = JS.slice_last 1000 log.
Proof.
  induction 1
    as [|log r b s _ IH|log s _ IH|log s _ IH|log p s _ IH|log m s _ IH].
  - reflexivity.
  - exact IH.
  - exact IH.
  - destruct (selectCore_registry s) as (_ & _ & ->). exact IH.
  - destruct (selectCoreByPath_registry p s) as (_ & _ & ->). exact IH.
  - rewrite pushMetrics_kept, IH. apply slice_last_app.
Qed.

Lemma history_recordAll (cfgs : list CoreConfig) outcomes :
  forall log s,
    history cfgs log s ->
    history cfgs (log ++ outcomes) (recordAll outcomes s).
Proof.
  induction outcomes as [|m outcomes IH]; intros log s H; simpl.
  - rewrite app_nil_r. exact H.
  - replace (log ++ m :: outcomes) with ((log ++ [m]) ++ outcomes)
      by (rewrite <- app_assoc; reflexivity).
    apply IH. constructor. exact H.
Qed.

(** C8. Whatever the service has done, and whatever outcomes [log] it has
    recorded on the way (in arrival order), the metrics store holds exactly
    the last min(k, 1000) of them, in arrival order ([k] being their
    number): never more than 1000, the oldest being dropped on overflow. In
    particular the count reported after 1001 recorded outcomes is 1000. *)
Theorem metrics_store_keeps_last_1000
        (cfgs : list CoreConfig) (log : list RequestMetrics) (s : state) :
  history cfgs log s ->
  (List.length (requestMetrics s) <= 1000)%nat /\
  List.length (requestMetrics s) = Nat.min (List.length log) 1000 /\
  requestMetrics s = skipn (List.length log - 1000) log /\
  firstn (List.length log - 1000) log ++ requestMetrics s = log /\
  (List.length log = 1001%nat ->
   totalRequests s = 1000%nat /\ requestMetrics s = tl log).
Proof.
  intros H. pose proof (history_metrics _ _ _ H) as Hm.
  rewrite Hm. repeat split.
  - rewrite slice_last_length. lia.
  - apply slice_last_length.
  - apply slice_last_suffix.
  - unfold totalRequests, getMetrics. rewrite Hm, slice_last_length. lia.
  - unfold JS.slice_last.
    match goal with
    | Hlen : List.length log = 1001%nat |- _ => rewrite Hlen
    end.
    destruct log; reflexivity.
Qed.

Lemma metrics_store_keeps_last_1000_witness :
  totalRequests (recordAll sampleLog (init coreConfigs0)) = 1000%nat /\
  requestMetrics (recordAll sampleLog (init coreConfigs0)) = tl sampleLog.
Proof.
  apply (metrics_store_keeps_last_1000
           coreConfigs0 sampleLog (recordAll sampleLog (init coreConfigs0))).
  - apply (history_recordAll coreConfigs0 sampleLog [] (init coreConfigs0)).
    constructor.
  - vm_compute. reflexivity.
Defined.

Example metrics_1001_count :
  totalRequests (recordAll sampleLog (init coreConfigs0)) = 1000%nat.
Proof. vm_compute. reflexivity. Qed.

End MetricsStore.

(* ------------------------------------------------------------------ *)
(** ** Round-robin selection *)

Section RoundRobin.

Import ProxyService Run.

(** The residues of [n] consecutive counter values are pairwise distinct. *)
Lemma window_injective (n a x y : nat) :
  (a <= x < a + n)%nat -> (a <= y < a + n)%nat ->
  (x mod n = y mod n)%nat -> x = y.
Proof.
  intros Hx Hy E.
  assert (Hn : n <> 0%nat) by lia.
  pose proof (Nat.div_mod_eq x n) as Dx.
  pose proof (Nat.div_mod_eq y n) as Dy.
  rewrite E in Dx.
  set (qx := (x / n)%nat) in *. set (qy := (y / n)%nat) in *.
  set (m := (y mod n)%nat) in *.
  destruct (Nat.lt_trichotomy qx qy) as [H|[H|H]]; nia.
Qed.

Lemma window_NoDup (n a : nat) :
  NoDup (map (fun i => i mod n)%nat (seq a n)).
Proof.
  apply NoDup_map_NoDup_ForallPairs; [|apply seq_NoDup].
  intros x y Hx Hy E. apply in_seq in Hx. apply in_seq in Hy.
  eapply window_injective; eassumption.
Qed.

(** Over [n] consecutive counter values each residue occurs exactly once. *)
Lemma window_count (n a j : nat) :
  (j < n)%nat ->
  count_occ Nat.eq_dec (map (fun i => i mod n)%nat (seq a n)) j = 1%nat.
Proof.
  intros Hj.
  apply (proj1 (NoDup_count_occ' Nat.eq_dec _) (window_NoDup n a)).
  assert (Hperm : Permutation
                    (map (fun i => i mod n)%nat (seq a n)) (seq 0 n)).
  { apply NoDup_Permutation_bis.
    - apply window_NoDup.
    - rewrite length_map, !length_seq. lia.
    - intros x Hx. apply in_map_iff in Hx. destruct Hx as (i & <- & _).
      apply in_seq. pose proof (Nat.mod_upper_bound i n). lia. }
  eapply Permutation_in.
  - apply Permutation_sym, Hperm.
  - apply in_seq. lia.
Qed.

Lemma three_windows_count (n a j : nat) :
  (j < n)%nat ->
  count_occ Nat.eq_dec (map (fun i => i mod n)%nat (seq a (3 * n))) j
    = 3%nat.
Proof.
  intros Hj.
  replace (3 * n)%nat with (n + (n + n))%nat by lia.
  rewrite !seq_app, !map_app, !count_occ_app, !window_count by exact Hj.
  reflexivity.
Qed.

(** [k] calls of [selectCore] pick the positions [c mod n], [(c+1) mod n],
    ... of the active list, [c] being the counter before the first call. *)
Lemma selectCoreTimes_spec (k : nat) :
  forall s,
    activeConfigs s <> [] ->
    selectCoreTimes k s =
      (map (fun i => nth_error (activeConfigs s)
                               (i mod List.length (activeConfigs s))%nat)
           (seq (currentCoreIndex s) k),
       mkState (coreConfigs s) (activeConfigs s) (requestMetrics s)
               (currentCoreIndex s + k)).
Proof.
  induction k as [|k IH]; intros s Hne.
  - simpl. rewrite Nat.add_0_r. destruct s; reflexivity.
  - cbn [selectCoreTimes].
    destruct (selectCore_spec s Hne) as (r & -> & Hnth & _).
    rewrite IH by exact Hne. cbn [coreConfigs activeConfigs requestMetrics
                                  currentCoreIndex seq map].
    rewrite Hnth. rewrite Nat.add_succ_r. reflexivity.
Qed.

(** With distinct backends in the active list, counting the selections of
    a backend is counting the occurrences of its position. *)
Lemma timesSelected_positions (active : list nat) (j r : nat) :
  NoDup active -> nth_error active j = Some r ->
  forall idxs,
    Forall (fun i => i < List.length active)%nat idxs ->
    timesSelected r (map (nth_error active) idxs)
      = count_occ Nat.eq_dec idxs j.
Proof.
  intros Hnd Hj. unfold timesSelected.
  induction 1 as [|i idxs Hi _ IH]; [reflexivity|].
  cbn [map filter count_occ].
  destruct (nth_error active i) as [x|] eqn:Ei.
  - destruct (Nat.eq_dec i j) as [->|Hij].
    + assert (x = r) by congruence. subst x.
      rewrite Nat.eqb_refl. simpl. f_equal. exact IH.
    + destruct (Nat.eqb_spec x r) as [->|_]; [|exact IH].
      exfalso. apply Hij.
      apply (proj1 (NoDup_nth_error active) Hnd i j Hi). congruence.
  - apply nth_error_None in Ei. lia.
Qed.

(** Without a session user id, a sweep or a matching path prefix the router
    makes the round-robin selection. *)
Lemma routeSelect_round_robin random check (req : Request) (s : state) :
  sweepDrawn random = false ->
  JS.truthy (Auth.sessionUserId req) = false ->
  JS.startsWith (req_path req) "/api/v1" = false ->
  JS.startsWith (req_path req) "/api/v2" = false ->
  JS.startsWith (req_path req) "/api/v3" = false ->
  routeSelect random check req s = selectCore s.
Proof.
  intros Hd Hid H1 H2 H3.
  rewrite routeSelect_no_identity by exact Hid.
  unfold opportunisticSweep. rewrite Hd.
  unfold selectCoreByPath. rewrite H1, H2, H3.
  destruct (List.length (activeConfigs s) =? 0)%nat eqn:E; [|reflexivity].
  unfold selectCore. rewrite E. reflexivity.
Qed.

(** C6. For every state with a consistent registry, a healthy set of size
    n >= 1 and any value c of the round-robin counter, 3n consecutive
    round-robin selections pick, in call order, the healthy backends at
    positions c mod n, (c+1) mod n, ... of the healthy list (registry order,
    wrapping around), each healthy backend exactly 3 times, and leave the
    counter at c + 3n and the healthy set unchanged. The round-robin
    selection is what the router makes when no sweep is drawn, the session
    carries no user id and the path has none of the configured prefixes. *)
Theorem round_robin_visits_each_three_times (s : state) :
  consistent s ->
  (1 <= List.length (activeConfigs s))%nat ->
  let n := List.length (activeConfigs s) in
  let c := currentCoreIndex s in
  let selected := fst (selectCoreTimes (3 * n) s) in
  let s' := snd (selectCoreTimes (3 * n) s) in
  List.length selected = (3 * n)%nat /\
  (forall k, (k < 3 * n)%nat ->
             exists r, nth_error selected k = Some (Some r) /\
                       nth_error (activeConfigs s) ((c + k) mod n)%nat
                         = Some r) /\
  (forall r, In r (activeConfigs s) -> timesSelected r selected = 3%nat) /\
  currentCoreIndex s' = (c + 3 * n)%nat /\
  activeConfigs s' = activeConfigs s /\
  (forall random check req s0,
      sweepDrawn random = false ->
      JS.truthy (Auth.sessionUserId req) = false ->
      JS.startsWith (req_path req) "/api/v1" = false ->
      JS.startsWith (req_path req) "/api/v2" = false ->
      JS.startsWith (req_path req) "/api/v3" = false ->
      routeSelect random check req s0 = selectCore s0).
Proof.
  intros Hc Hn n c selected s'.
  assert (Hrouter : forall random check req s0,
             sweepDrawn random = false ->
             JS.truthy (Auth.sessionUserId req) = false ->
             JS.startsWith (req_path req) "/api/v1" = false ->
             JS.startsWith (req_path req) "/api/v2" = false ->
             JS.startsWith (req_path req) "/api/v3" = false ->
             routeSelect random check req s0 = selectCore s0).
  { intros. apply routeSelect_round_robin; assumption. }
  assert (Hne : activeConfigs s <> []).
  { intros E. rewrite E in Hn. simpl in Hn. lia. }
  pose proof (selectCoreTimes_spec (3 * n) s Hne) as Hspec.
  subst selected s'. rewrite Hspec. cbn [fst snd currentCoreIndex activeConfigs].
  fold n c.
  split; [rewrite length_map, length_seq; reflexivity|].
  split.
  { intros k Hk.
    assert (Hlt : ((c + k) mod n < List.length (activeConfigs s))%nat).
    { apply Nat.mod_upper_bound. subst n. lia. }
    destruct (nth_error (activeConfigs s) ((c + k) mod n)%nat) as [r|] eqn:E.
    - exists r. split; [|reflexivity].
      rewrite nth_error_map, nth_error_seq.
      destruct (Nat.ltb_spec k (3 * n)) as [_|Hge]; [|lia].
      simpl. rewrite E. reflexivity.
    - apply nth_error_None in E. lia. }
  split; [|split; [reflexivity | split; [reflexivity | exact Hrouter]]].
  intros r Hin.
  apply In_nth_error in Hin. destruct Hin as [j Hj].
  assert (Hjn : (j < n)%nat).
  { apply nth_error_Some. rewrite Hj. discriminate. }
  assert (Hnd : NoDup (activeConfigs s)).
  { rewrite Hc. apply filterActive_NoDup. }
  rewrite <- (map_map (fun i => i mod n)%nat (nth_error (activeConfigs s))).
  rewrite (timesSelected_positions (activeConfigs s) j r Hnd Hj).
  - apply three_windows_count. exact Hjn.
  - apply Forall_forall. intros i Hi. apply in_map_iff in Hi.
    destruct Hi as (x & <- & _). apply Nat.mod_upper_bound. subst n. lia.
Qed.

Lemma round_robin_visits_each_three_times_witness :
  timesSelected 2 (fst (selectCoreTimes
                          (3 * List.length (activeConfigs core1Down))
                          core1Down)) = 3%nat.
Proof.
  apply (round_robin_visits_each_three_times core1Down).
  - reflexivity.
  - simpl. lia.
  - simpl. right. left. reflexivity.
Defined.

Example round_robin_six_calls :
  fst (selectCoreTimes 6 core1Down)
    = [Some 1; Some 2; Some 1; Some 2; Some 1; Some 2]%nat.
Proof. reflexivity. Qed.

End RoundRobin.

(* ------------------------------------------------------------------ *)
(** ** Sessions and identities *)

Section Authentication.

Import SessionService Auth Run.

Context {J : Jwt}.

Lemma isSessionValid_spec (timeoutMs now la : Z) (sess : SessionData) :
  JS.truthy (userId sess) = true ->
  lastActivity sess = Some la ->
  isSessionValid timeoutMs now sess = (now - la <? timeoutMs).
Proof.
  intros Hu Hl. unfold isSessionValid. rewrite Hu, Hl. reflexivity.
Qed.

Lemma updateLastActivity_session (date : Z) (req : Request)
      (sess : SessionData) :
  req_session req = Some sess ->
  JS.truthy (userId sess) = true ->
  req_session (updateLastActivity date req)
    = Some (mkSessionData (userId sess) (userRole sess) (preferences sess)
                          (Some date)).
Proof.
  intros Hs Hu. unfold updateLastActivity. rewrite Hs, Hu. reflexivity.
Qed.

Lemma requireAuth_session (timeoutMs now date la : Z) (req : Request)
      (sess : SessionData) :
  req_session req = Some sess ->
  JS.truthy (userId sess) = true ->
  lastActivity sess = Some la ->
  requireAuth timeoutMs now date req =
    if now - la <? timeoutMs
    then Next (updateLastActivity date req)
    else Reply (destroy req) sessionExpired.
Proof.
  intros Hs Hu Hl. unfold requireAuth. rewrite Hs, Hu.
  rewrite (isSessionValid_spec timeoutMs now la sess Hu Hl). reflexivity.
Qed.

(** C7. For a request that carries a session (with its user id and its
    last activity [la]), [requireAuth] lets the request through exactly when
    [now - la < timeoutMs]. When it does, the session's [lastActivity] is
    refreshed to the clock reading [date] taken at the refresh (the same
    instant [now] when both readings fall in one millisecond); otherwise the
    session is destroyed, its cookie cleared and the answer is the 401
    Session Expired error. A session last active [timeoutMs + 1] ms ago is
    rejected, one last active [timeoutMs - 1] ms ago is accepted. *)
Theorem session_valid_iff_within_timeout
        (timeoutMs now date la : Z) (req : Request) (sess : SessionData) :
  req_session req = Some sess ->
  JS.truthy (userId sess) = true ->
  lastActivity sess = Some la ->
  (accepted (requireAuth timeoutMs now date req) = true
   <-> now - la < timeoutMs) /\
  (now - la < timeoutMs ->
   requireAuth timeoutMs now date req = Next (updateLastActivity date req) /\
   req_session (updateLastActivity date req)
     = Some (mkSessionData (userId sess) (userRole sess) (preferences sess)
                           (Some date))) /\
  (timeoutMs <= now - la ->
   requireAuth timeoutMs now date req = Reply (destroy req) sessionExpired /\
   req_session (destroy req) = None /\
   res_status sessionExpired = 401 /\
   body_field "error" sessionExpired = Some "Session Expired" /\
   res_clearedCookies sessionExpired = ["connect.sid"]) /\
  (la = now - (timeoutMs + 1) ->
   requireAuth timeoutMs now date req = Reply (destroy req) sessionExpired) /\
  (la = now - (timeoutMs - 1) ->
   requireAuth timeoutMs now now req = Next (updateLastActivity now req) /\
   option_map lastActivity (req_session (updateLastActivity now req))
     = Some (Some now)).
Proof.
  intros Hs Hu Hl.
  pose proof (requireAuth_session timeoutMs now date la req sess Hs Hu Hl)
    as Hreq.
  assert (Hacc : now - la < timeoutMs ->
                 requireAuth timeoutMs now date req
                 = Next (updateLastActivity date req)).
  { intros Hlt. rewrite Hreq.
    destruct (Z.ltb_spec (now - la) timeoutMs); [reflexivity | lia]. }
  assert (Hrej : timeoutMs <= now - la ->
                 requireAuth timeoutMs now date req
                 = Reply (destroy req) sessionExpired).
  { intros Hge. rewrite Hreq.
    destruct (Z.ltb_spec (now - la) timeoutMs); [lia | reflexivity]. }
  split.
  { rewrite Hreq.
    destruct (Z.ltb_spec (now - la) timeoutMs); simpl; split;
      intros; try lia; try reflexivity; discriminate. }
  split.
  { intros Hlt. split; [apply Hacc, Hlt|].
    apply updateLastActivity_session; assumption. }
  split.
  { intros Hge. split; [apply Hrej, Hge|]. repeat split. }
  split.
  { intros ->. apply Hrej. lia. }
  intros ->. split.
  - rewrite (requireAuth_session timeoutMs now now _ req sess Hs Hu Hl).
    destruct (Z.ltb_spec (now - (now - (timeoutMs - 1))) timeoutMs);
      [reflexivity | lia].
  - rewrite (updateLastActivity_session now req sess Hs Hu). reflexivity.
Qed.

Lemma listed_user_found (u : AuthUser) :
  In u users ->
  JS.truthy (Some (id u)) = true /\
  find (fun v => (id v =? id u)%string) users = Some u.
Proof.
  intros [<-|[<-|[]]]; split; reflexivity.
Qed.

Lemma getUserFromSession_listed (req : Request) (sess : SessionData)
      (u : AuthUser) :
  In u users ->
  req_session req = Some sess -> userId sess = Some (id u) ->
  getUserFromSession req = Some u.
Proof.
  intros Hu Hs Hid. destruct (listed_user_found u Hu) as [Ht Hf].
  unfold getUserFromSession. rewrite Hs, Hid, Ht. exact Hf.
Qed.

Lemma getUserFromSession_anonymous (req : Request) :
  JS.truthy (sessionUserId req) = false -> getUserFromSession req = None.
Proof.
  unfold getUserFromSession, sessionUserId.
  destruct (req_session req) as [sess|]; [|reflexivity].
  destruct (userId sess) as [uid|]; [|reflexivity].
  intros ->. reflexivity.
Qed.

(** Without a session user id [requireAuth] decides on the bearer token. *)
Lemma requireAuth_bearer (timeoutMs now date : Z) (req : Request)
      (payload : JwtPayload) :
  JS.truthy (sessionUserId req) = false ->
  bearer req = Some payload ->
  requireAuth timeoutMs now date req
    = Next (setUser (DecodedToken payload) req).
Proof.
  unfold requireAuth, sessionUserId. intros Ht Hb. rewrite Hb.
  destruct (req_session req) as [sess|]; [|reflexivity].
  rewrite Ht. reflexivity.
Qed.

Lemma includes_In (ps : list string) (p : string) :
  existsb (fun q => (q =? p)%string) ps = true <-> In p ps.
Proof.
  rewrite existsb_exists. split.
  - intros (q & Hin & Hq). apply String.eqb_eq in Hq. subst q. exact Hin.
  - intros Hin. exists p. split; [exact Hin | apply String.eqb_refl].
Qed.

(** C3, amended. For every user of the user list, a valid session of the
    user resolves to the stored user (id, username, role, permissions) and
    a verified token of the user resolves to the token's payload, which
    carries the user's id, username and role and no permissions. Hence
    [requireRole] gives the same outcome for both credential kinds, while
    [requirePermission] accepts a session-carried identity exactly when the
    permission is among the user's and answers 403 Forbidden to a
    token-carried identity. *)
Theorem credential_kinds_resolve_identity
        (u : AuthUser) (p r : string) (timeoutMs now date la : Z)
        (reqS reqT : Request) (sess : SessionData) (payload : JwtPayload) :
  In u users ->
  req_session reqS = Some sess ->
  userId sess = Some (id u) ->
  lastActivity sess = Some la ->
  now - la < timeoutMs ->
  JS.truthy (sessionUserId reqT) = false ->
  bearer reqT = Some payload ->
  decodes_to (jwtClaims u) payload ->
  exists reqS' reqT',
    requireAuth timeoutMs now date reqS = Next reqS' /\
    requireAuth timeoutMs now date reqT = Next reqT' /\
    currentUser reqS' = Some (StoredUser u) /\
    currentUser reqT' = Some (DecodedToken payload) /\
    jwt_userId payload = id u /\
    userNameOf (DecodedToken payload) = username u /\
    userRoleOf (DecodedToken payload) = role u /\
    userPermissions (StoredUser u) = Some (permissions u) /\
    userPermissions (DecodedToken payload) = None /\
    accepted (requireRole r reqS') = accepted (requireRole r reqT') /\
    (accepted (requirePermission p reqS') = true <-> In p (permissions u)) /\
    (exists res, requirePermission p reqT' = Reply reqT' res /\
                 res_status res = 403 /\
                 body_field "error" res = Some "Forbidden").
Proof.
  intros Hu Hs Hid Hla Hlt Hanon Hb (Hpid & Hpname & Hprole).
  destruct (listed_user_found u Hu) as [Ht _].
  assert (Htruthy : JS.truthy (userId sess) = true) by (rewrite Hid; exact Ht).
  assert (HreqS : requireAuth timeoutMs now date reqS
                  = Next (updateLastActivity date reqS)).
  { rewrite (requireAuth_session timeoutMs now date la reqS sess Hs Htruthy Hla).
    destruct (Z.ltb_spec (now - la) timeoutMs); [reflexivity | lia]. }
  pose proof (updateLastActivity_session date reqS sess Hs Htruthy) as HsessS.
  exists (updateLastActivity date reqS), (setUser (DecodedToken payload) reqT).
  assert (HuserS : currentUser (updateLastActivity date reqS)
                   = Some (StoredUser u)).
  { unfold currentUser.
    rewrite (getUserFromSession_listed _ _ u Hu HsessS Hid). reflexivity. }
  assert (HuserT : currentUser (setUser (DecodedToken payload) reqT)
                   = Some (DecodedToken payload)).
  { unfold currentUser.
    rewrite (getUserFromSession_anonymous (setUser _ reqT)) by exact Hanon.
    reflexivity. }
  split; [exact HreqS|].
  split; [apply requireAuth_bearer; assumption|].
  split; [exact HuserS|]. split; [exact HuserT|].
  split; [exact Hpid|]. split; [exact Hpname|]. split; [exact Hprole|].
  split; [reflexivity|]. split; [reflexivity|].
  split.
  { unfold requireRole. rewrite HuserS, HuserT. simpl userRoleOf.
    rewrite Hprole. change (claim_role (jwtClaims u)) with (role u).
    destruct (role u =? r)%string; reflexivity. }
  split.
  { unfold requirePermission. rewrite HuserS.
    unfold includesPermission. simpl userPermissions.
    rewrite <- includes_In.
    destruct (existsb (fun q => (q =? p)%string) (permissions u));
      simpl; split; intros; try reflexivity; try discriminate. }
  unfold requirePermission. rewrite HuserT. simpl.
  eexists. split; [reflexivity|]. split; reflexivity.
Qed.

End Authentication.

Section CredentialKinds.

Import SessionService Auth Run.

Lemma session_valid_iff_within_timeout_witness :
  accepted (@requireAuth sampleJwt defaultTimeout 5000000 5000000
                        (sessionRequest "/proxy/status" "1" 1400001)) = true
  <-> 5000000 - 1400001 < defaultTimeout.
Proof.
  exact (proj1 (@session_valid_iff_within_timeout
                  sampleJwt defaultTimeout 5000000 5000000 1400001
                  (sessionRequest "/proxy/status" "1" 1400001)
                  (mkSessionData (Some "1") None [] (Some 1400001))
                  eq_refl eq_refl eq_refl)).
Defined.

Lemma credential_kinds_resolve_identity_witness :
  exists reqS' reqT',
    @requireAuth sampleJwt defaultTimeout 1000 1000
                 (sessionRequest "/proxy/metrics" "1" 0) = Next reqS' /\
    @requireAuth sampleJwt defaultTimeout 1000 1000
                 (bearerRequest "/proxy/metrics" "token-1") = Next reqT' /\
    accepted (requireRole "admin" reqS')
    = accepted (requireRole "admin" reqT').
Proof.
  destruct (@credential_kinds_resolve_identity
              sampleJwt (mkAuthUser "1" "admin" "admin"
                                    ["read"; "write"; "delete"])
              "read" "admin" defaultTimeout 1000 1000 0
              (sessionRequest "/proxy/metrics" "1" 0)
              (bearerRequest "/proxy/metrics" "token-1")
              (mkSessionData (Some "1") None [] (Some 0))
              (mkJwtPayload "1" "admin" "admin" 0 86400)
              (or_introl eq_refl) eq_refl eq_refl eq_refl eq_refl eq_refl
              eq_refl (conj eq_refl (conj eq_refl eq_refl)))
    as (reqS' & reqT' & HS & HT & _ & _ & _ & _ & _ & _ & _ & Hrole & _).
  exists reqS', reqT'. repeat split; assumption.
Defined.

(** C3, as stated, fails: the administrator passes
    [requirePermission "read"] with a valid session and is refused with a
    verified token. *)
Lemma token_identity_lacks_permissions :
  ~ (forall (J : Jwt) (u : AuthUser) (p : string)
            (timeoutMs now date la : Z) (reqS reqT : Request)
            (sess : SessionData) (payload : JwtPayload),
        In u users ->
        req_session reqS = Some sess ->
        userId sess = Some (id u) ->
        lastActivity sess = Some la ->
        now - la < timeoutMs ->
        JS.truthy (sessionUserId reqT) = false ->
        bearer reqT = Some payload ->
        decodes_to (jwtClaims u) payload ->
        accepted (andThen (requireAuth timeoutMs now date reqS)
                          (requirePermission p))
        = accepted (andThen (requireAuth timeoutMs now date reqT)
                            (requirePermission p))).
Proof.
  intros claim.
  specialize (claim sampleJwt
                    (mkAuthUser "1" "admin" "admin"
                                ["read"; "write"; "delete"])
                    "read" defaultTimeout 1000 1000 0
                    (sessionRequest "/proxy/metrics" "1" 0)
                    (bearerRequest "/proxy/metrics" "token-1")
                    (mkSessionData (Some "1") None [] (Some 0))
                    (mkJwtPayload "1" "admin" "admin" 0 86400)
                    (or_introl eq_refl) eq_refl eq_refl eq_refl eq_refl
                    eq_refl eq_refl (conj eq_refl (conj eq_refl eq_refl))).
  vm_compute in claim. discriminate claim.
Qed.

End CredentialKinds.

(* ================================================================== *)
(** * Further properties of the code *)

(* ------------------------------------------------------------------ *)
(** ** The hash as a polynomial *)

Section HashPolynomial.

Import ProxyService.

Lemma to_int32_congr (a b : Z) :
  a mod 2 ^ 32 = b mod 2 ^ 32 -> JS.to_int32 a = JS.to_int32 b.
Proof.
  intros E. unfold JS.to_int32.
  rewrite (Z.add_mod a), (Z.add_mod b), E by lia. reflexivity.
Qed.

Lemma to_int32_mod (z : Z) : JS.to_int32 z mod 2 ^ 32 = z mod 2 ^ 32.
Proof.
  unfold JS.to_int32.
  rewrite Zminus_mod, Z.mod_mod by lia.
  rewrite <- Zminus_mod. f_equal. lia.
Qed.

(** One step of the loop, on a hash that is the 32-bit image of [x]. *)
Lemma hashStep_to_int32 (x char : Z) :
  hashStep (JS.to_int32 x) char = JS.to_int32 (31 * x + char).
Proof.
  unfold hashStep. rewrite band_diag. unfold JS.shl.
  change (Z.land 5 31) with 5. rewrite Z.shiftl_mul_pow2 by lia.
  change (2 ^ 5) with 32.
  rewrite (to_int32_small (JS.to_int32 x)) by apply to_int32_range.
  apply to_int32_congr.
  rewrite Zplus_mod, Zminus_mod, to_int32_mod.
  rewrite (Zmult_mod (JS.to_int32 x) 32), !to_int32_mod.
  rewrite <- Zmult_mod, <- Zminus_mod, <- Zplus_mod.
  f_equal. lia.
Qed.

Lemma fold_hashStep_polynomial (str : list Z) :
  forall x,
    fold_left hashStep str (JS.to_int32 x)
    = JS.to_int32 (fold_left (fun h c => 31 * h + c) str x).
Proof.
  induction str as [|c str IH]; intros x; simpl.
  - reflexivity.
  - rewrite hashStep_to_int32. apply IH.
Qed.

(** X1. [simpleHash] is the polynomial hash: the code units are folded as
    [h := 31 * h + c] in the integers, the result is reduced to a signed
    32-bit integer once at the end, and its absolute value is taken. The
    wrap-around of the intermediate steps does not change the result. *)
Theorem simpleHash_is_polynomial_hash (str : list Z) (userId : string) :
  simpleHashCodes str
  = Z.abs (JS.to_int32 (fold_left (fun h c => 31 * h + c) str 0)) /\
  simpleHash userId
  = Z.abs (JS.to_int32
             (fold_left (fun h c => 31 * h + c) (JS.charCodes userId) 0)).
Proof.
  assert (H : forall l, simpleHashCodes l
                        = Z.abs (JS.to_int32
                                   (fold_left (fun h c => 31 * h + c) l 0))).
  { intros l. unfold simpleHashCodes.
    rewrite <- fold_hashStep_polynomial. reflexivity. }
  split; [apply H | apply H].
Qed.

End HashPolynomial.

(* ------------------------------------------------------------------ *)
(** ** Sweeps and the registry *)

Section Sweeps.

Import ProxyService Run Health ProxyRoutes.

Lemma filterActive_shift (c : CoreConfig) (cfgs : list CoreConfig) :
  filterActive (c :: cfgs)
  = (if isActive c then [0%nat] else []) ++ map S (filterActive cfgs).
Proof.
  unfold filterActive. cbn [List.length seq filter].
  change (refActive (c :: cfgs) 0) with (isActive c).
  rewrite <- seq_shift.
  assert (E : filter (refActive (c :: cfgs)) (map S (seq 0 (List.length cfgs)))
              = map S (filter (refActive cfgs) (seq 0 (List.length cfgs)))).
  { induction (seq 0 (List.length cfgs)) as [|i l IH]; [reflexivity|].
    cbn [map filter]. change (refActive (c :: cfgs) (S i))
      with (refActive cfgs i).
    destruct (refActive cfgs i); cbn [map]; rewrite IH; reflexivity. }
  rewrite E. destruct (isActive c); reflexivity.
Qed.

(** The backends the filtered positions refer to are the filtered backends,
    in the same order. *)
Lemma filterActive_deref (cfgs : list CoreConfig) :
  map (deref cfgs) (filterActive cfgs) = map Some (filter isActive cfgs).
Proof.
  induction cfgs as [|c cfgs IH]; [reflexivity|].
  rewrite filterActive_shift, map_app, map_map. cbn [filter].
  change (fun x => deref (c :: cfgs) (S x)) with (deref cfgs).
  rewrite IH. destruct (isActive c); reflexivity.
Qed.

Lemma filterActive_sorted (cfgs : list CoreConfig) :
  Sorted.StronglySorted lt (filterActive cfgs).
Proof.
  unfold filterActive. generalize 0%nat.
  induction (List.length cfgs) as [|n IH]; intros a; cbn [seq filter].
  - constructor.
  - assert (Hall : Forall (lt a)
                          (filter (refActive cfgs) (seq (S a) n))).
    { apply Forall_forall. intros x Hx. apply filter_In in Hx.
      destruct Hx as [Hx _]. apply in_seq in Hx. lia. }
    destruct (refActive cfgs a).
    + constructor; [apply IH | exact Hall].
    + apply IH.
Qed.

Lemma sweep_deref (check : CoreConfig -> bool) (s : state) (r : nat) :
  deref (coreConfigs (updateCoreStatuses check s)) r
  = option_map (fun c => mkCoreConfig (name c) (url c) (healthCheck c)
                                      (weight c) (check c))
               (deref (coreConfigs s) r).
Proof. unfold deref. simpl. apply nth_error_map. Qed.

(** X2. After a sweep the healthy set is exactly the backends whose probe
    answered with a status in 200-299, listed in configuration order; a
    probe that throws (timeout, refused connection) or answers another
    status marks the backend unhealthy. The sweep changes no name, URL,
    health-check path or weight, and touches neither the round-robin counter
    nor the metrics. The forced health-check route answers with the
    backends carrying exactly these flags. *)
Theorem sweep_marks_exactly_the_2xx_backends
        (fetch : string -> FetchResult) (s : state) :
  let s' := sweep fetch s in
  (forall r,
      In r (activeConfigs s') <->
      exists c status,
        deref (coreConfigs s) r = Some c /\
        fetch (url c ++ healthCheck c)%string = FetchResponse status /\
        200 <= status <= 299) /\
  (forall r, In r (activeConfigs s') <-> refActive (coreConfigs s') r = true) /\
  Sorted.StronglySorted lt (activeConfigs s') /\
  map name (coreConfigs s') = map name (coreConfigs s) /\
  map url (coreConfigs s') = map url (coreConfigs s) /\
  map healthCheck (coreConfigs s') = map healthCheck (coreConfigs s) /\
  map weight (coreConfigs s') = map weight (coreConfigs s) /\
  currentCoreIndex s' = currentCoreIndex s /\
  requestMetrics s' = requestMetrics s /\
  map isActive (fst (healthCheckRoute fetch s))
  = map (checkCoreHealth fetch) (coreConfigs s).
Proof.
  intros s'. subst s'. unfold healthCheckRoute, getCoreStatuses, sweep.
  cbn [fst].
  split.
  { intros r.
    change (activeConfigs (updateCoreStatuses (checkCoreHealth fetch) s))
      with (filterActive
              (coreConfigs (updateCoreStatuses (checkCoreHealth fetch) s))).
    rewrite filterActive_In. unfold refActive.
    rewrite sweep_deref.
    destruct (deref (coreConfigs s) r) as [c|]; cbn [option_map isActive].
    - unfold checkCoreHealth, response_ok. split.
      + intros H. exists c.
        destruct (fetch (url c ++ healthCheck c)%string) as [status|];
          [|discriminate].
        exists status. apply andb_true_iff in H. destruct H as [H1 H2].
        apply Z.leb_le in H1. apply Z.leb_le in H2. auto.
      + intros (c' & status & Hc & Hf & Hs). injection Hc as <-.
        rewrite Hf. apply andb_true_iff. split; apply Z.leb_le; lia.
    - split; [discriminate|]. intros (c' & _ & Hc & _). discriminate. }
  split; [intros r; apply filterActive_In|].
  split; [apply filterActive_sorted|].
  cbn [updateCoreStatuses coreConfigs currentCoreIndex requestMetrics].
  rewrite !map_map. cbn [name url healthCheck weight].
  repeat split; reflexivity.
Qed.

Lemma sweep_overwrites (check1 check2 : CoreConfig -> bool) (s : state) :
  (forall c b, check2 (mkCoreConfig (name c) (url c) (healthCheck c)
                                    (weight c) b) = check2 c) ->
  updateCoreStatuses check2 (updateCoreStatuses check1 s)
  = updateCoreStatuses check2 s.
Proof.
  intros Hind. unfold updateCoreStatuses.
  cbn [coreConfigs requestMetrics currentCoreIndex].
  assert (E : map (fun config =>
                     mkCoreConfig (name config) (url config)
                                  (healthCheck config) (weight config)
                                  (check2 config))
                  (map (fun config =>
                          mkCoreConfig (name config) (url config)
                                       (healthCheck config) (weight config)
                                       (check1 config))
                       (coreConfigs s))
              = map (fun config =>
                       mkCoreConfig (name config) (url config)
                                    (healthCheck config) (weight config)
                                    (check2 config))
                    (coreConfigs s)).
  { rewrite map_map. apply map_ext. intros c. cbn [name url healthCheck weight].
    rewrite Hind. reflexivity. }
  rewrite E. reflexivity.
Qed.

(** X3. The result of a sweep does not depend on the health flags it finds:
    a sweep after any other sweep leaves the state a single sweep would
    (last write wins), so repeating a sweep against an unchanged network
    changes nothing. *)
Theorem sweep_last_write_wins
        (fetch1 fetch2 : string -> FetchResult) (s : state) :
  sweep fetch2 (sweep fetch1 s) = sweep fetch2 s /\
  sweep fetch2 (sweep fetch2 s) = sweep fetch2 s.
Proof.
  unfold sweep. split; apply sweep_overwrites; intros c b; reflexivity.
Qed.

Lemma setActive_members (r : nat) (b : bool) (cfgs : list CoreConfig) :
  map name (setActive r b cfgs) = map name cfgs /\
  map url (setActive r b cfgs) = map url cfgs /\
  map healthCheck (setActive r b cfgs) = map healthCheck cfgs /\
  map weight (setActive r b cfgs) = map weight cfgs.
Proof.
  revert r. induction cfgs as [|c cfgs IH]; intros r; [auto|].
  destruct r as [|r]; cbn [setActive map name url healthCheck weight];
    [auto|].
  destruct (IH r) as (-> & -> & -> & ->). auto.
Qed.

Lemma history_registry (cfgs : list CoreConfig) log (s : state) :
  history cfgs log s ->
  map name (coreConfigs s) = map name cfgs /\
  map url (coreConfigs s) = map url cfgs /\
  map healthCheck (coreConfigs s) = map healthCheck cfgs /\
  map weight (coreConfigs s) = map weight cfgs.
Proof.
  induction 1
    as [|log r b s _ IH|log s _ IH|log s _ IH|log p s _ IH|log m s _ IH].
  - auto.
  - cbn [writeFlag coreConfigs].
    destruct (setActive_members r b (coreConfigs s)) as (-> & -> & -> & ->).
    exact IH.
  - exact IH.
  - destruct (selectCore_registry s) as (-> & _). exact IH.
  - destruct (selectCoreByPath_registry p s) as (-> & _). exact IH.
  - exact IH.
Qed.

Lemma history_length (cfgs : list CoreConfig) log (s : state) :
  history cfgs log s -> List.length (coreConfigs s) = List.length cfgs.
Proof.
  intros H. destruct (history_registry _ _ _ H) as (Hn & _).
  rewrite <- (length_map name (coreConfigs s)), Hn, length_map.
  reflexivity.
Qed.

Lemma filterActive_bounded (cfgs : list CoreConfig) :
  Forall (fun r => r < List.length cfgs)%nat (filterActive cfgs).
Proof.
  apply Forall_forall. intros r Hr.
  apply filterActive_In, refActive_lt in Hr. exact Hr.
Qed.

(** Whatever the flags are, the healthy list is a list of configured
    positions in increasing order. *)
Lemma history_active (cfgs : list CoreConfig) log (s : state) :
  history cfgs log s ->
  Sorted.StronglySorted lt (activeConfigs s) /\
  Forall (fun r => r < List.length cfgs)%nat (activeConfigs s).
Proof.
  induction 1
    as [|log r b s H IH|log s H IH|log s H IH|log p s H IH|log m s H IH].
  - split; [apply filterActive_sorted | apply filterActive_bounded].
  - exact IH.
  - cbn [rebuildActive activeConfigs].
    split; [apply filterActive_sorted|].
    rewrite <- (history_length _ _ _ H). apply filterActive_bounded.
  - destruct (selectCore_registry s) as (_ & -> & _). exact IH.
  - destruct (selectCoreByPath_registry p s) as (_ & -> & _). exact IH.
  - exact IH.
Qed.

(** X4. Along every run, the states in the middle of a sweep included, the
    registry keeps its members: the names, URLs, health-check paths and
    weights of the backends are those of the configuration, in
    configuration order; only the health flags change. The status route
    therefore always reports the configured number of backends as
    [totalCount], and an [activeCount] (the number of flags set) that is no
    larger. The healthy list the selector uses is always a list of
    configured positions in increasing order; whenever the registry is
    consistent (from initialisation or the rebuild that ends a sweep until
    the next write of a flag) [activeCount] is its size and its backends are
    those with the flag set, in configuration order. *)
Theorem registry_membership_is_fixed
        (cfgs : list CoreConfig) (log : list RequestMetrics) (s : state) :
  history cfgs log s ->
  map name (getCoreStatuses s) = map name cfgs /\
  map url (getCoreStatuses s) = map url cfgs /\
  map healthCheck (getCoreStatuses s) = map healthCheck cfgs /\
  map weight (getCoreStatuses s) = map weight cfgs /\
  totalCount (statusRoute s) = List.length cfgs /\
  (activeCount (statusRoute s) <= totalCount (statusRoute s))%nat /\
  Sorted.StronglySorted lt (activeConfigs s) /\
  Forall (fun r => r < List.length cfgs)%nat (activeConfigs s) /\
  (consistent s ->
   activeCount (statusRoute s) = List.length (activeConfigs s) /\
   map (deref (coreConfigs s)) (activeConfigs s)
   = map Some (filter isActive (getCoreStatuses s))).
Proof.
  intros H.
  destruct (history_registry _ _ _ H) as (Hn & Hu & Hh & Hw).
  destruct (history_active _ _ _ H) as (Hsorted & Hbound).
  pose proof (filterActive_deref (coreConfigs s)) as Hd.
  unfold statusRoute. cbn [totalCount activeCount]. unfold getCoreStatuses.
  split; [exact Hn|]. split; [exact Hu|]. split; [exact Hh|].
  split; [exact Hw|].
  split; [apply (history_length _ _ _ H)|].
  split; [apply filter_length_le|].
  split; [exact Hsorted|]. split; [exact Hbound|].
  intros Hc. rewrite Hc. split; [|exact Hd].
  apply (f_equal (@List.length _)) in Hd.
  rewrite !length_map in Hd. symmetry. exact Hd.
Qed.

End Sweeps.

Section SweepsWitness.

Import ProxyService Run Health ProxyRoutes.

Lemma registry_membership_is_fixed_witness :
  totalCount (statusRoute core1Down) = List.length coreConfigs0 /\
  activeCount (statusRoute core1Down)
  = List.length (activeConfigs core1Down).
Proof.
  destruct (registry_membership_is_fixed coreConfigs0 [] core1Down)
    as (_ & _ & _ & _ & Htotal & _ & _ & _ & Hactive).
  - apply history_sweep. constructor.
  - split; [exact Htotal|]. apply Hactive. reflexivity.
Defined.

End SweepsWitness.

(* ------------------------------------------------------------------ *)
(** ** The routing table of path prefixes *)

Section PathTable.

Import ProxyService Run.

Lemma prefix_same_length (a b p : string) :
  String.length a = String.length b ->
  String.prefix a p = true -> String.prefix b p = true -> a = b.
Proof.
  intros Hlen Ha Hb.
  apply String.prefix_correct in Ha. apply String.prefix_correct in Hb.
  rewrite Hlen in Ha. congruence.
Qed.

Lemma prefix_exclusive (a b p : string) :
  String.length a = String.length b -> a <> b ->
  JS.startsWith p a = true -> JS.startsWith p b = false.
Proof.
  unfold JS.startsWith. intros Hlen Hne Ha.
  destruct (String.prefix b p) eqn:Hb; [|reflexivity].
  exfalso. apply Hne. eapply prefix_same_length; eassumption.
Qed.

Lemma orSelectCore_found (target : string) (s : state) (r : nat) :
  In r (activeConfigs s) -> refName (coreConfigs s) r = target ->
  exists r', orSelectCore (findByName target s) s = (Some r', s) /\
             In r' (activeConfigs s) /\
             refName (coreConfigs s) r' = target.
Proof.
  intros Hin Hn. destruct (findByName_found _ _ _ Hin Hn) as [r' Hf].
  exists r'. rewrite Hf. split; [reflexivity|].
  apply findByName_some. exact Hf.
Qed.

Lemma orSelectCore_missing (target : string) (s : state) :
  (forall r, In r (activeConfigs s) -> refName (coreConfigs s) r <> target) ->
  orSelectCore (findByName target s) s = selectCore s.
Proof.
  intros Hno. destruct (findByName target s) as [r|] eqn:Hf; [|reflexivity].
  exfalso. apply findByName_some in Hf. destruct Hf as [Hin Hn].
  exact (Hno r Hin Hn).
Qed.

Lemma selectCoreByPath_table (p prefix target : string) (s : state) :
  In (prefix, target)
     [("/api/v1", "core-api-1"); ("/api/v2", "core-api-2");
      ("/api/v3", "core-api-3")] ->
  JS.startsWith p prefix = true ->
  selectCoreByPath p s = orSelectCore (findByName target s) s.
Proof.
  intros Hin Hp. unfold selectCoreByPath.
  destruct (activeConfigs s) as [|a l] eqn:E.
  - cbn [List.length Nat.eqb]. unfold findByName. rewrite E.
    cbn [find orSelectCore]. symmetry. apply selectCore_empty. exact E.
  - change (List.length (a :: l) =? 0)%nat with false. cbv iota.
    destruct Hin as [H|[H|[H|[]]]]; injection H as <- <-.
    + rewrite Hp. reflexivity.
    + rewrite (prefix_exclusive "/api/v2" "/api/v1" p eq_refl
                                ltac:(discriminate) Hp).
      rewrite Hp. reflexivity.
    + rewrite (prefix_exclusive "/api/v3" "/api/v1" p eq_refl
                                ltac:(discriminate) Hp).
      rewrite (prefix_exclusive "/api/v3" "/api/v2" p eq_refl
                                ltac:(discriminate) Hp).
      rewrite Hp. reflexivity.
Qed.

(** X5. Path-prefix routing follows one table: /api/v1, /api/v2 and /api/v3
    lead to the backends named core-api-1, core-api-2 and core-api-3. For a
    path that starts with one of the prefixes (as a string prefix: /api/v10
    counts as /api/v1), the selection is a healthy backend of that name,
    with the round-robin counter left alone, whenever one is in the healthy
    list; when none is, and for a path with none of the prefixes, the
    selection is the round-robin one. *)
Theorem path_prefix_routing_table
        (p prefix target : string) (s : state) :
  In (prefix, target)
     [("/api/v1", "core-api-1"); ("/api/v2", "core-api-2");
      ("/api/v3", "core-api-3")] ->
  JS.startsWith p prefix = true ->
  ((exists r, In r (activeConfigs s) /\ refName (coreConfigs s) r = target) ->
   exists r, selectCoreByPath p s = (Some r, s) /\
             In r (activeConfigs s) /\
             refName (coreConfigs s) r = target) /\
  ((forall r, In r (activeConfigs s) -> refName (coreConfigs s) r <> target) ->
   selectCoreByPath p s = selectCore s) /\
  (forall q,
      JS.startsWith q "/api/v1" = false ->
      JS.startsWith q "/api/v2" = false ->
      JS.startsWith q "/api/v3" = false ->
      selectCoreByPath q s = selectCore s).
Proof.
  intros Hin Hp.
  rewrite (selectCoreByPath_table p prefix target s Hin Hp).
  split; [|split].
  - intros (r & Hr & Hn). apply (orSelectCore_found target s r Hr Hn).
  - apply orSelectCore_missing.
  - intros q H1 H2 H3. unfold selectCoreByPath. rewrite H1, H2, H3.
    destruct (List.length (activeConfigs s) =? 0)%nat eqn:E; [|reflexivity].
    unfold selectCore. rewrite E. reflexivity.
Qed.

Lemma path_prefix_routing_table_witness :
  exists r,
    selectCoreByPath "/api/v20/orders" (init coreConfigs0)
    = (Some r, init coreConfigs0) /\
    In r (activeConfigs (init coreConfigs0)) /\
    refName (coreConfigs (init coreConfigs0)) r = "core-api-2".
Proof.
  apply (path_prefix_routing_table
           "/api/v20/orders" "/api/v2" "core-api-2" (init coreConfigs0)).
  - right. left. reflexivity.
  - reflexivity.
  - exists 1%nat. split; [right; left; reflexivity | reflexivity].
Defined.

End PathTable.

(* ------------------------------------------------------------------ *)
(** ** The router, end to end *)

Section Router.

Import ProxyService Run ProxyRoutes.

Lemma selectCoreByUser_ext (uid : string) (s1 s2 : state) :
  activeConfigs s1 = activeConfigs s2 ->
  selectCoreByUser uid s1 = selectCoreByUser uid s2.
Proof. unfold selectCoreByUser. intros ->. reflexivity. Qed.

Lemma selectCoreByUser_In (uid : string) (s : state) (r : nat) :
  selectCoreByUser uid s = Some r -> In r (activeConfigs s).
Proof.
  intros H. destruct (activeConfigs s) as [|a l] eqn:E.
  - rewrite selectCoreByUser_empty in H by exact E. discriminate.
  - destruct (selectCoreByUser_some uid s) as (r' & Hr' & Hin).
    + rewrite E. discriminate.
    + rewrite E in Hin. congruence.
Qed.

Lemma selectCoreByPath_In (p : string) (s : state) (r : nat) :
  fst (selectCoreByPath p s) = Some r -> In r (activeConfigs s).
Proof.
  intros H. destruct (activeConfigs s) as [|a l] eqn:E.
  - rewrite selectCoreByPath_empty in H by exact E. discriminate.
  - destruct (selectCoreByPath_some p s) as (r' & Hr' & Hin).
    + rewrite E. discriminate.
    + rewrite E in Hin. congruence.
Qed.

Lemma routeSelect_In random check (req : Request) (s : state) (r : nat) :
  fst (routeSelect random check req s) = Some r ->
  In r (activeConfigs (opportunisticSweep random check s)).
Proof.
  destruct (routeSelect_cases random check req s) as [[uid ->] | ->].
  - apply selectCoreByUser_In.
  - apply selectCoreByPath_In.
Qed.

Lemma proxyMiddleware_registry targetCore uuid backend startTime now date
      (req : Request) (s : state) :
  coreConfigs (snd (proxyMiddleware targetCore uuid backend startTime now
                                    date req s)) = coreConfigs s /\
  activeConfigs (snd (proxyMiddleware targetCore uuid backend startTime now
                                      date req s)) = activeConfigs s.
Proof. destruct backend; split; reflexivity. Qed.

Lemma restoreUrl_path (req : Request) :
  req_originalUrl req <> "" ->
  req_path (restoreUrl req) = req_originalUrl req.
Proof.
  intros Hne. unfold restoreUrl. cbn [JS.truthy].
  destruct (String.eqb_spec (req_originalUrl req) ""); [contradiction|].
  reflexivity.
Qed.

Lemma restoreUrl_method (req : Request) :
  req_method (restoreUrl req) = req_method req.
Proof. unfold restoreUrl. destruct (JS.truthy _); reflexivity. Qed.

(** X6. Every request the router handles gets exactly one of three
    answers. With an empty healthy list at selection time: 503, nothing
    recorded. Otherwise the selected backend is a member of the healthy
    list and either it answers, the answer is relayed and exactly one
    outcome is recorded (with the correlation id drawn at dispatch, the
    method of the request, the path of the URL as it came in, whatever
    mount the router runs under, the name of the selected backend and the
    backend's status, 0 when it has none), or the exchange fails, the client
    gets 502 with the correlation id and nothing is recorded. *)
Theorem router_answers_once
        (s : state) random check uuid backend
        (startTime now date : Z) (req : Request) :
  let s1 := opportunisticSweep random check s in
  let selected := fst (routeSelect random check req s) in
  let reply :=
    fst (intelligentRouter random check uuid backend startTime now date
                           req s) in
  let s' :=
    snd (intelligentRouter random check uuid backend startTime now date
                           req s) in
  (selected = None ->
   activeConfigs s1 = [] /\
   res_status_of reply = Some 503 /\ requestMetrics s' = requestMetrics s) /\
  (forall r code,
      selected = Some r -> backend = BackendResponse code ->
      In r (activeConfigs s1) /\
      reply = Relayed code /\
      requestMetrics s'
      = JS.slice_last 1000
          (requestMetrics s
           ++ [mkRequestMetrics (Some uuid) (req_method req)
                                (req_path (restoreUrl req))
                                (refName (coreConfigs s1) r)
                                (now - startTime)
                                (match code with Some c => c | None => 0 end)
                                date])) /\
  (forall r msg,
      selected = Some r -> backend = BackendError msg ->
      In r (activeConfigs s1) /\
      res_status_of reply = Some 502 /\
      (exists res, reply = Sent res /\
                   body_field "requestId" res = Some uuid) /\
      requestMetrics s' = requestMetrics s) /\
  (req_originalUrl req <> "" ->
   req_path (restoreUrl req) = req_originalUrl req).
Proof.
  intros s1 selected reply s'.
  destruct (routeSelect_registry random check req s) as (Hcfg & _ & Hmet).
  rewrite (opportunisticSweep_metrics random check s) in Hmet.
  fold s1 in Hcfg.
  pose proof (routeSelect_In random check req s) as HIn. fold s1 in HIn.
  assert (Hempty : fst (routeSelect random check req s) = None ->
                   activeConfigs s1 = []).
  { intros Hnone. destruct (activeConfigs s1) as [|a l] eqn:E; [reflexivity|].
    exfalso.
    destruct (routeSelect_cases random check req s) as [[uid Hr] | Hr];
      fold s1 in Hr; rewrite Hr in Hnone.
    - destruct (selectCoreByUser_some uid s1) as (r & Hsome & _);
        [rewrite E; discriminate|].
      cbn [fst] in Hnone. congruence.
    - destruct (selectCoreByPath_some (req_path req) s1) as (r & Hsome & _);
        [rewrite E; discriminate|].
      congruence. }
  subst selected reply s'. unfold intelligentRouter.
  destruct (routeSelect random check req s) as [sel s2] eqn:Hsel.
  cbn [fst snd] in *.
  split; [|split; [|split]].
  - intros ->. cbn [fst snd].
    split; [apply Hempty; reflexivity|]. split; [reflexivity | exact Hmet].
  - intros r code -> ->. cbn [fst snd proxyMiddleware].
    split; [apply HIn; reflexivity|].
    split; [reflexivity|].
    unfold onProxyRes. rewrite pushMetrics_kept, Hmet.
    unfold outcomeOf. rewrite Hcfg.
    cbn [onProxyReq req_request_id req_method req_path].
    rewrite restoreUrl_method. reflexivity.
  - intros r msg -> ->. cbn [fst snd proxyMiddleware onError].
    split; [apply HIn; reflexivity|].
    split; [reflexivity|].
    split; [|exact Hmet].
    eexists. split; reflexivity.
  - apply restoreUrl_path.
Qed.

(** X7. A user's backend is sticky: two requests whose sessions carry the
    same user id are routed to the same backend, whatever their paths, when
    the first has been handled completely (answered or failed, recorded or
    not) and no sweep is drawn by either; more generally the backend of a
    user depends on the healthy list alone, not on the round-robin counter
    or the metrics. *)
Theorem same_user_same_backend
        random1 random2 check1 check2 uuid backend (startTime now date : Z)
        (req1 req2 : Request) (uid : string) (s : state) :
  Auth.sessionUserId req1 = Some uid ->
  Auth.sessionUserId req2 = Some uid ->
  JS.truthy (Some uid) = true ->
  sweepDrawn random1 = false ->
  sweepDrawn random2 = false ->
  fst (routeSelect random2 check2 req2
         (snd (intelligentRouter random1 check1 uuid backend startTime now
                                 date req1 s)))
  = fst (routeSelect random1 check1 req1 s) /\
  (forall s2, activeConfigs s2 = activeConfigs s ->
              fst (routeSelect random2 check2 req2 s2)
              = fst (routeSelect random1 check1 req1 s)).
Proof.
  intros H1 H2 Ht Hd1 Hd2.
  assert (Hany : forall s2, activeConfigs s2 = activeConfigs s ->
                            fst (routeSelect random2 check2 req2 s2)
                            = fst (routeSelect random1 check1 req1 s)).
  { intros s2 E.
    rewrite (routeSelect_identity random2 check2 req2 s2 uid H2 Ht).
    rewrite (routeSelect_identity random1 check1 req1 s uid H1 Ht).
    unfold opportunisticSweep. rewrite Hd1, Hd2. cbn [fst].
    apply selectCoreByUser_ext. exact E. }
  split; [|exact Hany].
  apply Hany. unfold intelligentRouter.
  rewrite (routeSelect_identity random1 check1 req1 s uid H1 Ht).
  unfold opportunisticSweep. rewrite Hd1.
  destruct (selectCoreByUser uid s) as [r|]; [|reflexivity].
  apply proxyMiddleware_registry.
Qed.

Lemma same_user_same_backend_witness :
  fst (routeSelect (1 # 2) (fun _ => true)
         (sessionRequest "/api/v3/reports" "1" 0)
         (snd (intelligentRouter (1 # 2) (fun _ => true) "id"
                 (BackendResponse (Some 200)) 10 10 10
                 (sessionRequest "/api/v1/x" "1" 0) (init coreConfigs0))))
  = fst (routeSelect (1 # 2) (fun _ => true)
           (sessionRequest "/api/v1/x" "1" 0) (init coreConfigs0)).
Proof.
  apply (same_user_same_backend
           (1 # 2)%Q (1 # 2)%Q (fun _ => true) (fun _ => true) "id"
           (BackendResponse (Some 200)) 10 10 10
           (sessionRequest "/api/v1/x" "1" 0)
           (sessionRequest "/api/v3/reports" "1" 0) "1" (init coreConfigs0));
    reflexivity.
Defined.

Lemma router_answers_once_witness :
  requestMetrics
    (snd (intelligentRouter
            (1 # 2) (fun _ => true) "id" (BackendResponse (Some 200))
            10 10 10
            (App.setPath "/v1/x" (App.inbound "GET" "/api/v1/x" None None))
            (init coreConfigs0)))
  = [mkRequestMetrics (Some "id") "GET" "/api/v1/x" "core-api-1" 0 200 10].
Proof.
  destruct (router_answers_once
              (init coreConfigs0) (1 # 2)%Q (fun _ => true) "id"
              (BackendResponse (Some 200)) 10 10 10
              (App.setPath "/v1/x" (App.inbound "GET" "/api/v1/x" None None)))
    as (_ & Hanswered & _).
  destruct (Hanswered 0%nat (Some 200) eq_refl eq_refl) as (_ & _ & Hm).
  exact Hm.
Defined.



End Router.

(* ------------------------------------------------------------------ *)
(** ** The metrics route *)

Section Counts.

Import ProxyRoutes.

Variable K : Type.
Variable eqb : K -> K -> bool.
Hypothesis eqb_eq : forall a b, eqb a b = true <-> a = b.

Lemma eqb_refl' (a : K) : eqb a a = true.
Proof. apply eqb_eq. reflexivity. Qed.

Lemma eqb_trans_l (a b c : K) :
  eqb a b = true -> eqb a c = eqb b c.
Proof. intros H. apply eqb_eq in H. subst. reflexivity. Qed.

Lemma count_bump (k k' : K) (acc : list (K * nat)) :
  count eqb k (bump eqb k' acc)
  = if eqb k' k
    then Some (S (match count eqb k acc with Some n => n | None => 0%nat end))
    else count eqb k acc.
Proof.
  unfold count. induction acc as [|[k0 n] rest IH]; cbn [bump find fst].
  - destruct (eqb k' k); reflexivity.
  - destruct (eqb k0 k') eqn:E0; cbn [find fst].
    + rewrite (eqb_trans_l k0 k' k E0).
      destruct (eqb k' k); reflexivity.
    + destruct (eqb k0 k) eqn:E1.
      * destruct (eqb k' k) eqn:E2; [|reflexivity].
        apply eqb_eq in E1. apply eqb_eq in E2. subst.
        rewrite eqb_refl' in E0. discriminate.
      * exact IH.
Qed.

Lemma count_fold (A : Type) (key : A -> K) (k : K) (items : list A) :
  forall acc,
    count eqb k (fold_left (fun acc m => bump eqb (key m) acc) items acc)
    = match count eqb k acc,
            List.length (filter (fun m => eqb (key m) k) items) with
      | None, O => None
      | None, S o => Some (S o)
      | Some n, o => Some (n + o)%nat
      end.
Proof.
  induction items as [|m items IH]; intros acc; cbn [fold_left filter].
  - cbn [List.length]. destruct (count eqb k acc) as [n|]; [|reflexivity].
    rewrite Nat.add_0_r. reflexivity.
  - rewrite IH, count_bump.
    destruct (eqb (key m) k); cbn [List.length].
    + destruct (count eqb k acc) as [n|].
      * f_equal. lia.
      * reflexivity.
    + reflexivity.
Qed.

Lemma totalCount_bump (k : K) (acc : list (K * nat)) :
  totalCount_of (bump eqb k acc) = S (totalCount_of acc).
Proof.
  induction acc as [|[k0 n] rest IH]; cbn [bump totalCount_of fold_right snd].
  - reflexivity.
  - destruct (eqb k0 k); cbn [fold_right snd].
    + reflexivity.
    + fold (totalCount_of (bump eqb k rest)). rewrite IH.
      fold (totalCount_of rest). lia.
Qed.

Lemma totalCount_fold (A : Type) (key : A -> K) (items : list A) :
  forall acc,
    totalCount_of (fold_left (fun acc m => bump eqb (key m) acc) items acc)
    = (totalCount_of acc + List.length items)%nat.
Proof.
  induction items as [|m items IH]; intros acc; cbn [fold_left List.length].
  - lia.
  - rewrite IH, totalCount_bump. lia.
Qed.

Lemma bump_keys (k : K) (acc : list (K * nat)) :
  (In k (map fst acc) -> map fst (bump eqb k acc) = map fst acc) /\
  (~ In k (map fst acc) -> map fst (bump eqb k acc) = map fst acc ++ [k]).
Proof.
  induction acc as [|[k0 n] rest [IH1 IH2]]; cbn [bump map fst].
  - split; [intros [] | reflexivity].
  - destruct (eqb k0 k) eqn:E; cbn [map fst].
    + split; [reflexivity|]. intros Hno. exfalso. apply Hno. left.
      apply eqb_eq. exact E.
    + split.
      * intros [->|Hin]; [rewrite eqb_refl' in E; discriminate|].
        rewrite IH1 by exact Hin. reflexivity.
      * intros Hno. rewrite IH2; [reflexivity|].
        intros Hin. apply Hno. right. exact Hin.
Qed.

Lemma bump_NoDup (k : K) (acc : list (K * nat)) :
  NoDup (map fst acc) -> NoDup (map fst (bump eqb k acc)).
Proof.
  intros Hnd. destruct (bump_keys k acc) as [H1 H2].
  destruct (existsb (eqb k) (map fst acc)) eqn:E.
  - apply existsb_exists in E. destruct E as (x & Hin & Hx).
    apply eqb_eq in Hx. subst x. rewrite H1 by exact Hin. exact Hnd.
  - assert (Hno : ~ In k (map fst acc)).
    { intros Hin.
      assert (existsb (eqb k) (map fst acc) = true).
      { apply existsb_exists. exists k. split; [exact Hin | apply eqb_refl']. }
      congruence. }
    rewrite H2 by exact Hno.
    apply NoDup_app; [exact Hnd | repeat constructor; intros [] |].
    intros x Hx [<-|[]]. exact (Hno Hx).
Qed.

Lemma fold_bump_NoDup (A : Type) (key : A -> K) (items : list A) :
  forall acc,
    NoDup (map fst acc) ->
    NoDup (map fst (fold_left (fun acc m => bump eqb (key m) acc) items acc)).
Proof.
  induction items as [|m items IH]; intros acc Hnd; cbn [fold_left].
  - exact Hnd.
  - apply IH, bump_NoDup, Hnd.
Qed.

End Counts.

Section MetricsRoute.

Import ProxyService Run ProxyRoutes.

(** X8. In the summary of the metrics route, the count reported for a
    status code (for a backend name) is the number of retained records with
    that status code (routed to that backend); a status code or backend with
    no record has no entry; no key appears twice; and the counts of either
    table add up to the number of retained records. *)
Theorem metrics_summary_counts (metrics : list RequestMetrics) :
  (forall code,
      count Z.eqb code (statusCodeCounts metrics)
      = match occurrences (fun m => statusCode m =? code) metrics with
        | O => None
        | S n => Some (S n)
        end) /\
  (forall core,
      count String.eqb core (coreUsage metrics)
      = match occurrences (fun m => (targetCore m =? core)%string) metrics
        with
        | O => None
        | S n => Some (S n)
        end) /\
  NoDup (map fst (statusCodeCounts metrics)) /\
  NoDup (map fst (coreUsage metrics)) /\
  totalCount_of (statusCodeCounts metrics) = List.length metrics /\
  totalCount_of (coreUsage metrics) = List.length metrics.
Proof.
  unfold statusCodeCounts, coreUsage, occurrences.
  split; [|split; [|split; [|split; [|split]]]].
  - intros code.
    rewrite (count_fold Z Z.eqb Z.eqb_eq RequestMetrics statusCode code).
    reflexivity.
  - intros core.
    rewrite (count_fold string String.eqb String.eqb_eq RequestMetrics
                        targetCore core).
    reflexivity.
  - apply (fold_bump_NoDup Z Z.eqb Z.eqb_eq). constructor.
  - apply (fold_bump_NoDup string String.eqb String.eqb_eq). constructor.
  - rewrite (totalCount_fold Z Z.eqb). reflexivity.
  - rewrite (totalCount_fold string String.eqb). reflexivity.
Qed.

Lemma slice_last_slice_last (A : Type) (m n : nat) (l : list A) :
  (m <= n)%nat ->
  JS.slice_last m (JS.slice_last n l) = JS.slice_last m l.
Proof.
  intros Hmn. unfold JS.slice_last.
  rewrite length_skipn, skipn_skipn. f_equal. lia.
Qed.

(** X9. The recent records the metrics route returns are the last
    min(k, 50) outcomes recorded in the whole run, in arrival order, [k]
    being the number of outcomes recorded so far: trimming the store to
    1000 never removes one of them. *)
Theorem recent_metrics_are_last_50
        (cfgs : list CoreConfig) (log : list RequestMetrics) (s : state) :
  history cfgs log s ->
  recentMetrics s = skipn (List.length log - 50) log /\
  List.length (recentMetrics s) = Nat.min (List.length log) 50 /\
  firstn (List.length log - 50) log ++ recentMetrics s = log.
Proof.
  intros H. unfold recentMetrics, getMetrics.
  rewrite (history_metrics _ _ _ H).
  rewrite slice_last_slice_last by lia.
  split; [reflexivity|]. split.
  - apply slice_last_length.
  - apply slice_last_suffix.
Qed.

Lemma recent_metrics_are_last_50_witness :
  List.length (recentMetrics (recordAll sampleLog (init coreConfigs0)))
  = Nat.min (List.length sampleLog) 50.
Proof.
  apply (recent_metrics_are_last_50
           coreConfigs0 sampleLog (recordAll sampleLog (init coreConfigs0))).
  apply (history_recordAll coreConfigs0 sampleLog [] (init coreConfigs0)).
  constructor.
Defined.

End MetricsRoute.

(* ------------------------------------------------------------------ *)
(** ** Login, logout and the guards *)

Section AuthFlows.

Import SessionService Auth AuthRoutes Run.

Context {J : Jwt}.

(** X10. [authenticate] returns a user exactly for the two credential pairs
    it knows, admin/admin123 and user/user123, and then the user of the
    user list with that username; any other username or password (the
    comparison is exact and case-sensitive) gives none. *)
Theorem authenticate_accepts_exactly_two_pairs (uname pwd : string)
        (u : AuthUser) :
  authenticate uname pwd = Some u <->
  (uname = "admin" /\ pwd = "admin123" /\
   u = mkAuthUser "1" "admin" "admin" ["read"; "write"; "delete"]) \/
  (uname = "user" /\ pwd = "user123" /\
   u = mkAuthUser "2" "user" "user" ["read"]).
Proof.
  unfold authenticate, users. cbn [find username].
  destruct (String.eqb_spec "admin" uname) as [<-|Hna].
  - change (JS.truthy (passwordOf "admin")) with true. cbn [negb].
    cbn [String.eqb Ascii.eqb Bool.eqb andb].
    destruct (String.eqb_spec pwd "admin123") as [->|Hp].
    + split; [intros H; injection H as <-; left; auto|].
      intros [(_ & _ & ->)|(H & _)]; [reflexivity | discriminate H].
    + split; [discriminate|].
      intros [(_ & H & _)|(H & _)]; [contradiction | discriminate H].
  - destruct (String.eqb_spec "user" uname) as [<-|Hnu].
    + change (JS.truthy (passwordOf "user")) with true. cbn [negb].
      cbn [String.eqb Ascii.eqb Bool.eqb andb].
      destruct (String.eqb_spec pwd "user123") as [->|Hp].
      * split; [intros H; injection H as <-; right; auto|].
        intros [(H & _)|(_ & _ & ->)]; [discriminate H | reflexivity].
      * split; [discriminate|].
        intros [(H & _)|(_ & H & _)]; [discriminate H | contradiction].
    + split; [discriminate|].
      intros [(H & _)|(H & _)]; congruence.
Qed.

Lemma authenticate_listed (uname pwd : string) (u : AuthUser) :
  authenticate uname pwd = Some u -> In u users.
Proof.
  unfold authenticate.
  destruct (find (fun v => (username v =? uname)%string) users) as [v|] eqn:E;
    [|discriminate].
  apply find_some in E. destruct E as [Hin _].
  intros H.
  assert (u = v).
  { destruct (negb (JS.truthy (passwordOf uname))); [discriminate|].
    destruct ((uname =? "admin")%string && (pwd =? "admin123")%string);
      [congruence|].
    destruct ((uname =? "user")%string && (pwd =? "user123")%string);
      [congruence | discriminate]. }
  subst. exact Hin.
Qed.

(** X11. A login with credentials [authenticate] accepts answers 200 with
    the user and a token signed for the user, and creates a session that
    authenticates from then on: as long as the session is within its
    timeout, /auth/me behind [requireAuth] returns that same user (id,
    username, role, permissions) and refreshes the last activity. A login
    that is refused or malformed answers 401 or 400 and leaves the request,
    and so the session, as it was. *)
Theorem login_then_me_round_trip
        (timeoutMs date now date' : Z) (sessionID uname pwd : string)
        (req : Request) (u : AuthUser) :
  authenticate uname pwd = Some u ->
  now - date < timeoutMs ->
  let req1 := fst (login (inr (uname, pwd)) date sessionID req) in
  snd (login (inr (uname, pwd)) date sessionID req)
  = LoginOk u (generateJWT u) sessionID /\
  req_session req1
  = Some (mkSessionData (Some (id u)) (Some (role u)) [] (Some date)) /\
  me timeoutMs now date' req1
  = (updateLastActivity date' req1,
     MeOk (Some (id u)) (username u) (role u) (Some (permissions u))
          (Some date')) /\
  (forall uname' pwd',
      authenticate uname' pwd' = None ->
      login (inr (uname', pwd')) date sessionID req
      = (req, LoginUnauthorized)) /\
  (forall message,
      login (inl message) date sessionID req
      = (req, LoginBadRequest message)).
Proof.
  intros Hauth Hlt req1. subst req1. unfold login. rewrite Hauth.
  cbn [fst snd].
  pose proof (authenticate_listed _ _ _ Hauth) as Hu.
  destruct (listed_user_found u Hu) as [Ht _].
  set (sess := mkSessionData (Some (id u)) (Some (role u)) [] (Some date)).
  assert (Hs : req_session (createSession date u req) = Some sess)
    by reflexivity.
  split; [reflexivity|]. split; [reflexivity|]. split.
  - unfold me.
    rewrite (requireAuth_session timeoutMs now date' date
                                 (createSession date u req) sess Hs Ht
                                 eq_refl).
    destruct (Z.ltb_spec (now - date) timeoutMs) as [_|Hge]; [|lia].
    pose proof (updateLastActivity_session date' _ sess Hs Ht) as Hs'.
    unfold currentUser.
    rewrite (getUserFromSession_listed _ _ u Hu Hs' eq_refl).
    rewrite Hs'. reflexivity.
  - split.
    + intros uname' pwd' Hnone. rewrite Hnone. reflexivity.
    + reflexivity.
Qed.

Lemma prefix_split (p s : string) :
  String.prefix p s = true ->
  s = (p ++ String.substring (String.length p)
                             (String.length s - String.length p) s)%string.
Proof.
  revert s. induction p as [|c p IH]; intros s H.
  - cbn [String.length String.append]. rewrite Nat.sub_0_r.
    clear H. induction s as [|d s IHs]; [reflexivity|].
    cbn [String.length String.substring]. f_equal. exact IHs.
  - destruct s as [|d s]; [discriminate|].
    cbn [String.prefix] in H.
    destruct (Ascii.ascii_dec c d) as [->|]; [|discriminate].
    cbn [String.length String.append String.substring Nat.sub].
    f_equal. apply IH. exact H.
Qed.

Lemma bearer_some (req : Request) (payload : JwtPayload) :
  bearer req = Some payload <->
  exists token,
    req_authorization req = Some ("Bearer " ++ token)%string /\
    jwt_verify token = Some payload.
Proof.
  unfold bearer, verifyJWT, JS.startsWith. split.
  - intros H. destruct (req_authorization req) as [h|]; [|discriminate].
    destruct (String.prefix "Bearer " h) eqn:Hp; [|discriminate].
    exists (String.substring 7 (String.length h - 7) h).
    split; [|exact H]. f_equal. apply (prefix_split "Bearer " h Hp).
  - intros (token & -> & Hv).
    change (String.prefix "Bearer " ("Bearer " ++ token)) with
      (String.prefix "" token).
    assert (Hpre : String.prefix "" token = true) by (destruct token; reflexivity).
    rewrite Hpre.
    change (String.length ("Bearer " ++ token)%string)
      with (7 + String.length token)%nat.
    replace (7 + String.length token - 7)%nat with (String.length token)
      by lia.
    change (String.substring 7 (String.length token)
                             ("Bearer " ++ token)%string)
      with (String.substring 0 (String.length token) token).
    assert (Hsub : String.substring 0 (String.length token) token = token).
    { clear. induction token as [|c t IH]; [reflexivity|].
      cbn [String.length String.substring]. f_equal. exact IH. }
    rewrite Hsub. exact Hv.
Qed.

Lemma requireAuth_anonymous (timeoutMs now date : Z) (req : Request) :
  JS.truthy (sessionUserId req) = false ->
  requireAuth timeoutMs now date req
  = match bearer req with
    | Some decoded => Next (setUser (DecodedToken decoded) req)
    | None =>
        Reply req (unauthorized "Acesso negado. Autenticação necessária.")
    end.
Proof.
  unfold requireAuth, sessionUserId. intros Ht.
  destruct (req_session req) as [sess|]; [|reflexivity].
  rewrite Ht. reflexivity.
Qed.

(** X12. When the session carries no user id, [requireAuth] decides on the
    Authorization header alone: the request passes exactly when the header
    is "Bearer " followed by a token that verifies, and the decoded token
    becomes [req.user]; otherwise (no header, another scheme, a token that
    does not verify) the answer is 401 Unauthorized, the request and its
    session are left as they were and no cookie is cleared. *)
Theorem bearer_token_decides_without_session
        (timeoutMs now date : Z) (req : Request) :
  JS.truthy (sessionUserId req) = false ->
  (accepted (requireAuth timeoutMs now date req) = true <->
   exists token payload,
     req_authorization req = Some ("Bearer " ++ token)%string /\
     jwt_verify token = Some payload) /\
  (forall req',
      requireAuth timeoutMs now date req = Next req' ->
      exists payload,
        bearer req = Some payload /\
        req' = setUser (DecodedToken payload) req) /\
  (accepted (requireAuth timeoutMs now date req) = false ->
   exists res,
     requireAuth timeoutMs now date req = Reply req res /\
     res_status res = 401 /\
     body_field "error" res = Some "Unauthorized" /\
     res_clearedCookies res = []).
Proof.
  intros Ht. rewrite (requireAuth_anonymous timeoutMs now date req Ht).
  destruct (bearer req) as [payload|] eqn:Hb.
  - split; [|split].
    + split; [|reflexivity]. intros _.
      apply bearer_some in Hb. destruct Hb as (token & Hh & Hv).
      exists token, payload. auto.
    + intros req' H. injection H as <-. exists payload. auto.
    + discriminate.
  - split; [|split].
    + split; [discriminate|].
      intros (token & payload & Hh & Hv).
      assert (bearer req = Some payload)
        by (apply bearer_some; exists token; auto).
      congruence.
    + discriminate.
    + intros _. eexists. split; [reflexivity|]. repeat split.
Qed.

(** X13. A session that carries a user id is decided on before the
    Authorization header is looked at: when it has expired the request is
    refused with 401 Session Expired and the session is destroyed even
    though the request carries a bearer token that verifies, and when it is
    valid the request passes without the token being stored in
    [req.user]. *)
Theorem session_decides_before_token
        (timeoutMs now date la : Z) (req : Request) (sess : SessionData)
        (payload : JwtPayload) :
  req_session req = Some sess ->
  JS.truthy (userId sess) = true ->
  lastActivity sess = Some la ->
  bearer req = Some payload ->
  (timeoutMs <= now - la ->
   requireAuth timeoutMs now date req = Reply (destroy req) sessionExpired) /\
  (now - la < timeoutMs ->
   requireAuth timeoutMs now date req = Next (updateLastActivity date req) /\
   req_user (updateLastActivity date req) = req_user req).
Proof.
  intros Hs Hu Hl _.
  rewrite (requireAuth_session timeoutMs now date la req sess Hs Hu Hl).
  split; intros H.
  - destruct (Z.ltb_spec (now - la) timeoutMs); [lia | reflexivity].
  - destruct (Z.ltb_spec (now - la) timeoutMs); [|lia].
    split; [reflexivity|].
    unfold updateLastActivity. rewrite Hs, Hu. reflexivity.
Qed.

(** X14. A route behind [requireAuth] and [requireRole r] (the metrics and
    forced health-check routes, with r = admin) is reached only by a request
    whose resolved identity has exactly the role [r]; behind
    [requirePermission p] it is reached only by an identity that is a user
    record with the permission [p] among its permissions, never by a decoded
    token. *)
Theorem guards_admit_only_the_role
        (timeoutMs now date : Z) (r p : string) (req : Request) :
  (accepted (andThen (requireAuth timeoutMs now date req) (requireRole r))
   = true ->
   exists req' user,
     requireAuth timeoutMs now date req = Next req' /\
     currentUser req' = Some user /\
     userRoleOf user = r) /\
  (accepted (andThen (requireAuth timeoutMs now date req)
                     (requirePermission p)) = true ->
   exists req' u,
     requireAuth timeoutMs now date req = Next req' /\
     currentUser req' = Some (StoredUser u) /\
     In p (permissions u)).
Proof.
  split.
  - destruct (requireAuth timeoutMs now date req) as [req'|req' res];
      [|discriminate].
    cbn [andThen]. unfold requireRole.
    destruct (currentUser req') as [user|] eqn:Hu; [|discriminate].
    destruct (String.eqb_spec (userRoleOf user) r) as [E|_]; [|discriminate].
    intros _. exists req', user. split; [reflexivity|]. split; assumption.
  - destruct (requireAuth timeoutMs now date req) as [req'|req' res];
      [|discriminate].
    cbn [andThen]. unfold requirePermission.
    destruct (currentUser req') as [[u|payload]|] eqn:Hu;
      [| discriminate | discriminate].
    unfold includesPermission. cbn [userPermissions].
    destruct (existsb (fun q => (q =? p)%string) (permissions u)) eqn:E;
      [|discriminate].
    intros _. exists req', u. split; [reflexivity|]. split; [exact Hu|].
    apply includes_In. exact E.
Qed.

Lemma bearer_ext (a b : Request) :
  req_authorization a = req_authorization b -> bearer a = bearer b.
Proof. unfold bearer. intros ->. reflexivity. Qed.

Lemma requireAuth_keeps_header (timeoutMs now date : Z) (req req' : Request) :
  requireAuth timeoutMs now date req = Next req' ->
  req_authorization req' = req_authorization req.
Proof.
  unfold requireAuth, updateLastActivity.
  destruct (req_session req) as [sess|].
  - destruct (JS.truthy (userId sess)).
    + destruct (isSessionValid timeoutMs now sess); [|discriminate].
      intros H. injection H as <-. reflexivity.
    + destruct (bearer req); [|discriminate].
      intros H. injection H as <-. reflexivity.
  - destruct (bearer req); [|discriminate].
    intros H. injection H as <-. reflexivity.
Qed.

(** X15. A successful logout answers 200 and destroys the session, and
    clears the cookie connect.sid, which is not the cookie the session is
    configured under; it does not touch the bearer token: the same request
    sent again with its Authorization header still passes [requireAuth]
    when the token verifies, and is refused with 401 Unauthorized when it
    carries none. *)
Theorem logout_destroys_session_not_token
        (timeoutMs now date now' date' : Z) (req req1 : Request) :
  requireAuth timeoutMs now date req = Next req1 ->
  let req2 := fst (logout timeoutMs now date false req) in
  let res := snd (logout timeoutMs now date false req) in
  res_status res = 200 /\
  req_session req2 = None /\
  res_clearedCookies res = ["connect.sid"] /\
  ~ In sessionCookieName (res_clearedCookies res) /\
  (forall payload,
      bearer req = Some payload ->
      requireAuth timeoutMs now' date' req2
      = Next (setUser (DecodedToken payload) req2)) /\
  (bearer req = None ->
   accepted (requireAuth timeoutMs now' date' req2) = false).
Proof.
  intros Hauth req2 res. subst req2 res. unfold logout. rewrite Hauth.
  cbn [fst snd res_status res_clearedCookies].
  pose proof (requireAuth_keeps_header _ _ _ _ _ Hauth) as Hh.
  assert (Hb : bearer (destroy req1) = bearer req)
    by (apply bearer_ext; exact Hh).
  assert (Hanon : JS.truthy (sessionUserId (destroy req1)) = false)
    by reflexivity.
  split; [reflexivity|]. split; [reflexivity|]. split; [reflexivity|].
  split.
  { intros [H|[]]. discriminate H. }
  rewrite (requireAuth_anonymous timeoutMs now' date' _ Hanon), Hb.
  split.
  - intros payload ->. reflexivity.
  - intros ->. reflexivity.
Qed.

(** X16. A token refresh needs no session: a token that verifies is answered
    with a new token signed for exactly the user id, username and role the
    presented token decodes to (permissions are never part of a token); a
    token that does not verify is answered 401, a malformed body 400. *)
Theorem refresh_resigns_the_decoded_identity
        (refreshToken : string) (decoded : JwtPayload) :
  verifyJWT refreshToken = Some decoded ->
  (exists claims,
      refresh (inr refreshToken) = RefreshOk (jwt_sign claims) /\
      decodes_to claims decoded /\
      claims = jwtClaims (userOfToken decoded) /\
      permissions (userOfToken decoded) = []) /\
  (forall other, verifyJWT other = None ->
                 refresh (inr other) = RefreshUnauthorized) /\
  (forall message, refresh (inl message) = RefreshBadRequest message).
Proof.
  intros Hv. split; [|split].
  - exists (jwtClaims (userOfToken decoded)).
    unfold refresh. rewrite Hv. repeat split.
  - intros other Ho. unfold refresh. rewrite Ho. reflexivity.
  - reflexivity.
Qed.

Lemma getUserFromSession_setUser (user : ReqUser) (req : Request) :
  getUserFromSession (setUser user req) = getUserFromSession req.
Proof. reflexivity. Qed.

(** X17. [optionalAuth] resolves the identity [requireAuth] does: whenever
    [requireAuth] lets a request through, [optionalAuth] on the same request
    and clock readings leaves the same session and the same resolved
    identity. Where [requireAuth] refuses, [optionalAuth] still calls next
    and leaves the session in place: it never destroys an expired
    session. *)
Theorem optionalAuth_agrees_with_requireAuth
        (timeoutMs now date : Z) (req : Request) :
  (forall req',
      requireAuth timeoutMs now date req = Next req' ->
      currentUser (optionalAuth timeoutMs now date req) = currentUser req' /\
      req_session (optionalAuth timeoutMs now date req) = req_session req') /\
  (forall req' res,
      requireAuth timeoutMs now date req = Reply req' res ->
      req_session (optionalAuth timeoutMs now date req) = req_session req).
Proof.
  unfold requireAuth, optionalAuth.
  destruct (req_session req) as [sess|] eqn:Hs.
  - destruct (JS.truthy (userId sess)) eqn:Ht; cbn [andb].
    + destruct (isSessionValid timeoutMs now sess).
      * split; [|discriminate]. intros req' H. injection H as <-.
        destruct (getUserFromSession (updateLastActivity date req))
          as [user|] eqn:Hu.
        -- unfold currentUser. rewrite getUserFromSession_setUser, Hu.
           split; reflexivity.
        -- split; reflexivity.
      * split; [discriminate|]. intros req' res _.
        destruct (bearer req); exact Hs.
    + destruct (bearer req).
      * split; [|discriminate]. intros req' H. injection H as <-.
        split; reflexivity.
      * split; [discriminate|]. intros req' res _. exact Hs.
  - destruct (bearer req).
    + split; [|discriminate]. intros req' H. injection H as <-.
      split; reflexivity.
    + split; [discriminate|]. intros req' res _. exact Hs.
Qed.

Lemma optionalAuth_session_valid (timeoutMs now date la : Z) (req : Request)
      (sess : SessionData) :
  req_session req = Some sess ->
  JS.truthy (userId sess) = true ->
  lastActivity sess = Some la ->
  now - la < timeoutMs ->
  req_session (optionalAuth timeoutMs now date req)
  = Some (mkSessionData (userId sess) (userRole sess) (preferences sess)
                        (Some date)).
Proof.
  intros Hs Hu Hl Hlt. unfold optionalAuth. rewrite Hs, Hu.
  rewrite (isSessionValid_spec timeoutMs now la sess Hu Hl).
  destruct (Z.ltb_spec (now - la) timeoutMs); [|lia]. cbn [andb].
  pose proof (updateLastActivity_session date req sess Hs Hu) as H'.
  destruct (getUserFromSession (updateLastActivity date req)); exact H'.
Qed.

Lemma optionalAuth_session_expired (timeoutMs now date la : Z)
      (req : Request) (sess : SessionData) :
  req_session req = Some sess ->
  JS.truthy (userId sess) = true ->
  lastActivity sess = Some la ->
  timeoutMs <= now - la ->
  req_session (optionalAuth timeoutMs now date req) = Some sess.
Proof.
  intros Hs Hu Hl Hge. unfold optionalAuth. rewrite Hs, Hu.
  rewrite (isSessionValid_spec timeoutMs now la sess Hu Hl).
  destruct (Z.ltb_spec (now - la) timeoutMs); [lia|]. cbn [andb].
  destruct (bearer req); exact Hs.
Qed.

(** X18. With [optionalAuth] installed before every route, it is
    [optionalAuth] that checks a session against its deadline. A session
    within its timeout when [optionalAuth] reads the clock has its last
    activity refreshed there, so the [requireAuth] of the route accepts it
    as long as it runs within the timeout of that refresh, and refreshes it
    again. A session already expired when [optionalAuth] runs is left in
    place, and [requireAuth] then destroys it and answers 401 Session
    Expired. *)
Theorem optional_then_require_on_a_session
        (timeoutMs now1 date1 now2 date2 la : Z) (req : Request)
        (sess : SessionData) :
  req_session req = Some sess ->
  JS.truthy (userId sess) = true ->
  lastActivity sess = Some la ->
  (now1 - la < timeoutMs -> now2 - date1 < timeoutMs ->
   exists req',
     optionalThenRequire timeoutMs now1 date1 now2 date2 req = Next req' /\
     req_session req'
     = Some (mkSessionData (userId sess) (userRole sess) (preferences sess)
                           (Some date2))) /\
  (timeoutMs <= now1 - la -> now1 <= now2 ->
   exists req',
     optionalThenRequire timeoutMs now1 date1 now2 date2 req
     = Reply req' sessionExpired /\
     req_session req' = None).
Proof.
  intros Hs Hu Hl. unfold optionalThenRequire. split.
  - intros Hlt1 Hlt2.
    pose proof (optionalAuth_session_valid timeoutMs now1 date1 la req sess
                                           Hs Hu Hl Hlt1) as Hs1.
    rewrite (requireAuth_session timeoutMs now2 date2 date1 _ _ Hs1 Hu
                                 eq_refl).
    destruct (Z.ltb_spec (now2 - date1) timeoutMs); [|lia].
    eexists. split; [reflexivity|].
    apply (updateLastActivity_session date2 _ _ Hs1 Hu).
  - intros Hge Hmono.
    pose proof (optionalAuth_session_expired timeoutMs now1 date1 la req sess
                                             Hs Hu Hl Hge) as Hs1.
    rewrite (requireAuth_session timeoutMs now2 date2 la _ _ Hs1 Hu Hl).
    destruct (Z.ltb_spec (now2 - la) timeoutMs); [lia|].
    eexists. split; reflexivity.
Qed.

(** X21. /auth/status reports a request as authenticated as soon as its
    session carries a user id or [req.user] is set, without looking at the
    session's age: a valid session is always reported as authenticated, an
    expired one is reported as authenticated with [sessionValid] false, and a
    request reported as not authenticated has no user in the answer. *)
Theorem auth_status_ignores_session_age
        (timeoutMs now : Z) (req : Request) :
  (sessionValid (status timeoutMs now req) = true ->
   isAuthenticated (status timeoutMs now req) = true) /\
  (forall sess la,
      req_session req = Some sess ->
      JS.truthy (userId sess) = true ->
      lastActivity sess = Some la ->
      timeoutMs <= now - la ->
      isAuthenticated (status timeoutMs now req) = true /\
      sessionValid (status timeoutMs now req) = false) /\
  (isAuthenticated (status timeoutMs now req) = false ->
   status_user (status timeoutMs now req) = None).
Proof.
  unfold status. cbn [sessionValid isAuthenticated status_user].
  unfold sessionUserId. split; [|split].
  - destruct (req_session req) as [sess|]; [|discriminate].
    destruct (JS.truthy (userId sess)); [reflexivity | discriminate].
  - intros sess la Hs Hu Hl Hge. rewrite Hs, Hu.
    rewrite (isSessionValid_spec timeoutMs now la sess Hu Hl).
    destruct (Z.ltb_spec (now - la) timeoutMs); [lia|]. split; reflexivity.
  - intros H. apply orb_false_iff in H. destruct H as [Hu Hr].
    unfold currentUser.
    rewrite (getUserFromSession_anonymous req) by exact Hu.
    destruct (req_user req); [discriminate | reflexivity].
Qed.

(** X22. /auth/me for an identity carried by a bearer token answers with the
    username and the role of the token; the answer has no user id and no
    permissions, the decoded token having neither an [id] nor a
    [permissions] field. *)
Theorem me_with_a_token
        (timeoutMs now date : Z) (req : Request) (payload : JwtPayload) :
  JS.truthy (sessionUserId req) = false ->
  bearer req = Some payload ->
  me timeoutMs now date req
  = (setUser (DecodedToken payload) req,
     MeOk None (jwt_username payload) (jwt_role payload) None
          (match req_session req with
           | Some sess => lastActivity sess
           | None => None
           end)).
Proof.
  intros Hanon Hb. unfold me.
  rewrite (requireAuth_anonymous timeoutMs now date req Hanon), Hb.
  unfold currentUser.
  rewrite (getUserFromSession_anonymous (setUser _ req)) by exact Hanon.
  reflexivity.
Qed.

End AuthFlows.

(* ------------------------------------------------------------------ *)
(** ** Header sanitisation and bot detection *)

Section SecurityProps.

Import Security.

Lemma get_delete_same (k : string) (h : Headers) :
  header_get k (header_delete k h) = None.
Proof.
  unfold header_get, header_delete.
  induction h as [|[k0 v0] h IH]; [reflexivity|].
  cbn [filter fst]. destruct (String.eqb_spec k0 k) as [->|Hne]; cbn [negb].
  - exact IH.
  - cbn [find fst]. destruct (String.eqb_spec k0 k); [contradiction | exact IH].
Qed.

Lemma get_delete_other (k k' : string) (h : Headers) :
  k <> k' -> header_get k (header_delete k' h) = header_get k h.
Proof.
  intros Hne. unfold header_get, header_delete.
  induction h as [|[k0 v0] h IH]; [reflexivity|].
  cbn [filter find fst].
  destruct (String.eqb_spec k0 k') as [->|Hne']; cbn [negb].
  - destruct (String.eqb_spec k' k); [congruence | exact IH].
  - cbn [find fst]. destruct (String.eqb_spec k0 k); [reflexivity | exact IH].
Qed.

Lemma get_set_same (k v : string) (h : Headers) :
  header_get k (header_set k v h) = Some v.
Proof.
  unfold header_get. induction h as [|[k0 v0] h IH]; cbn [header_set].
  - cbn [find fst]. rewrite String.eqb_refl. reflexivity.
  - destruct (String.eqb_spec k0 k) as [->|Hne]; cbn [find fst].
    + rewrite String.eqb_refl. reflexivity.
    + destruct (String.eqb_spec k0 k); [contradiction | exact IH].
Qed.

Lemma get_set_other (k k' v : string) (h : Headers) :
  k <> k' -> header_get k (header_set k' v h) = header_get k h.
Proof.
  intros Hne. unfold header_get.
  induction h as [|[k0 v0] h IH]; cbn [header_set].
  - cbn [find fst]. destruct (String.eqb_spec k' k); [congruence | reflexivity].
  - destruct (String.eqb_spec k0 k') as [->|Hne']; cbn [find fst].
    + destruct (String.eqb_spec k' k); [congruence | reflexivity].
    + destruct (String.eqb_spec k0 k); [reflexivity | exact IH].
Qed.

Lemma delete_absent (k : string) (h : Headers) :
  header_get k h = None -> header_delete k h = h.
Proof.
  unfold header_get, header_delete.
  induction h as [|[k0 v0] h IH]; [reflexivity|].
  cbn [find filter fst].
  destruct (String.eqb k0 k); [discriminate|]. cbn [negb].
  intros H. rewrite (IH H). reflexivity.
Qed.

Lemma delete_set (k k' v : string) (h : Headers) :
  k <> k' ->
  header_delete k (header_set k' v h) = header_set k' v (header_delete k h).
Proof.
  intros Hne. unfold header_delete.
  induction h as [|[k0 v0] h IH]; cbn [header_set filter fst].
  - destruct (String.eqb_spec k' k); [congruence | reflexivity].
  - destruct (String.eqb_spec k0 k') as [->|Hne'].
    + cbn [filter fst].
      destruct (String.eqb_spec k' k); [congruence|]. cbn [negb header_set].
      rewrite String.eqb_refl. reflexivity.
    + cbn [filter fst].
      destruct (String.eqb_spec k0 k) as [->|Hk]; cbn [negb].
      * exact IH.
      * cbn [header_set].
        destruct (String.eqb_spec k0 k'); [contradiction|].
        rewrite IH. reflexivity.
Qed.

Lemma set_set (k v : string) (h : Headers) :
  header_set k v (header_set k v h) = header_set k v h.
Proof.
  induction h as [|[k0 v0] h IH]; cbn [header_set].
  - rewrite String.eqb_refl. reflexivity.
  - destruct (String.eqb k0 k) eqn:E; cbn [header_set]; rewrite E.
    + reflexivity.
    + rewrite IH. reflexivity.
Qed.

(** X19. After [sanitizeHeaders] the headers x-forwarded-host,
    x-cluster-client-ip and x-real-ip are absent; x-forwarded-for keeps the
    value the client sent when it sent a non-empty one and is set to the
    address of the connection otherwise; every other header is left as it
    was; and sanitising twice is the same as sanitising once. *)
Theorem sanitizeHeaders_effect (ip : string) (h : Headers) :
  let h' := sanitizeHeaders ip h in
  header_get "x-forwarded-host" h' = None /\
  header_get "x-cluster-client-ip" h' = None /\
  header_get "x-real-ip" h' = None /\
  (JS.truthy (header_get "x-forwarded-for" h) = true ->
   header_get "x-forwarded-for" h' = header_get "x-forwarded-for" h) /\
  (JS.truthy (header_get "x-forwarded-for" h) = false ->
   header_get "x-forwarded-for" h' = Some ip) /\
  (forall k,
      k <> "x-forwarded-host" -> k <> "x-cluster-client-ip" ->
      k <> "x-real-ip" -> k <> "x-forwarded-for" ->
      header_get k h' = header_get k h) /\
  sanitizeHeaders ip h' = h'.
Proof.
  intros h'. subst h'. unfold sanitizeHeaders.
  set (D := header_delete "x-real-ip"
              (header_delete "x-cluster-client-ip"
                 (header_delete "x-forwarded-host" h))).
  assert (Hxff : header_get "x-forwarded-for" D
                 = header_get "x-forwarded-for" h).
  { subst D. rewrite !get_delete_other by discriminate. reflexivity. }
  assert (H1 : header_get "x-forwarded-host" D = None).
  { subst D. rewrite !get_delete_other by discriminate.
    apply get_delete_same. }
  assert (H2 : header_get "x-cluster-client-ip" D = None).
  { subst D. rewrite get_delete_other by discriminate.
    apply get_delete_same. }
  assert (H3 : header_get "x-real-ip" D = None).
  { subst D. apply get_delete_same. }
  assert (Hother : forall k,
             k <> "x-forwarded-host" -> k <> "x-cluster-client-ip" ->
             k <> "x-real-ip" -> header_get k D = header_get k h).
  { intros k K1 K2 K3. subst D. rewrite !get_delete_other by assumption.
    reflexivity. }
  assert (HD : header_delete "x-real-ip"
                 (header_delete "x-cluster-client-ip"
                    (header_delete "x-forwarded-host" D)) = D).
  { rewrite (delete_absent "x-forwarded-host" D H1).
    rewrite (delete_absent "x-cluster-client-ip" D H2).
    apply (delete_absent "x-real-ip" D H3). }
  rewrite Hxff.
  destruct (JS.truthy (header_get "x-forwarded-for" h)) eqn:Ht; cbn [negb].
  - repeat split; try assumption.
    + intros _. exact Hxff.
    + discriminate.
    + intros k K1 K2 K3 _. apply Hother; assumption.
    + rewrite HD, Hxff, Ht. reflexivity.
  - repeat split.
    + rewrite get_set_other by discriminate. exact H1.
    + rewrite get_set_other by discriminate. exact H2.
    + rewrite get_set_other by discriminate. exact H3.
    + discriminate.
    + intros _. apply get_set_same.
    + intros k K1 K2 K3 K4. rewrite get_set_other by assumption.
      apply Hother; assumption.
    + rewrite !delete_set by discriminate. rewrite HD, get_set_same.
      destruct (JS.truthy (Some ip)); cbn [negb];
        [reflexivity | apply set_set].
Qed.

Lemma prefix_app_includes (b : string) :
  forall a s, String.prefix (a ++ b) s = true -> includes s b = true.
Proof.
  induction a as [|c a IH]; intros s H.
  - cbn [String.append] in H.
    destruct s; cbn [includes]; rewrite H; reflexivity.
  - destruct s as [|d s]; [discriminate|].
    cbn [String.append String.prefix] in H.
    destruct (Ascii.ascii_dec c d); [|discriminate].
    cbn [includes]. rewrite (IH s H). apply orb_true_r.
Qed.

Lemma includes_suffix_word (a b : string) :
  forall s, includes s (a ++ b) = true -> includes s b = true.
Proof.
  induction s as [|d s IH]; cbn [includes]; intros H.
  - rewrite orb_false_r in H. apply (prefix_app_includes b a _ H).
  - apply orb_true_iff in H. destruct H as [H|H].
    + apply (prefix_app_includes b a _ H).
    + cbn [includes]. rewrite (IH H). apply orb_true_r.
Qed.

Lemma lowerAscii_idempotent (c : ascii) :
  lowerAscii (lowerAscii c) = lowerAscii c.
Proof.
  destruct c as [[] [] [] [] [] [] [] []]; reflexivity.
Qed.

Lemma lower_idempotent (s : string) : lower (lower s) = lower s.
Proof.
  induction s as [|c s IH]; [reflexivity|].
  cbn [lower]. rewrite lowerAscii_idempotent, IH. reflexivity.
Qed.

(** X20. [detectBots] refuses a request with 403 exactly when its User-Agent,
    letters A-Z folded to lower case, contains one of the words bot,
    crawler, spider, scraper or slurp (the patterns googlebot, bingbot and
    duckduckbot add nothing to bot); the test does not depend on the case of
    the User-Agent, and a request without User-Agent passes. *)
Theorem detectBots_refuses_exactly_bot_words (userAgentHeader : option string) :
  let userAgent :=
    match userAgentHeader with Some ua => ua | None => "" end in
  (isBot userAgentHeader = true <->
   exists word,
     In word ["bot"; "crawler"; "spider"; "scraper"; "slurp"] /\
     includes (lower userAgent) word = true) /\
  (detectBots userAgentHeader <> None <-> isBot userAgentHeader = true) /\
  (forall res, detectBots userAgentHeader = Some res ->
               res_status res = 403 /\
               body_field "error" res = Some "Forbidden") /\
  isBot (Some (lower userAgent)) = isBot userAgentHeader /\
  detectBots None = None.
Proof.
  intros userAgent.
  assert (Hbot : isBot userAgentHeader = true <->
                 exists word,
                   In word ["bot"; "crawler"; "spider"; "scraper"; "slurp"] /\
                   includes (lower userAgent) word = true).
  { unfold isBot. fold userAgent. rewrite existsb_exists.
    unfold testIgnoreCase, botPatterns. split.
    - intros (w & Hin & Hw). cbn [In] in Hin.
      destruct Hin as [<-|[<-|[<-|[<-|[<-|[<-|[<-|[<-|[]]]]]]]]].
      + exists "bot". cbn [In]. auto.
      + exists "crawler". cbn [In]. auto.
      + exists "spider". cbn [In]. auto.
      + exists "scraper". cbn [In]. auto 6.
      + exists "bot". split; [cbn [In]; auto|].
        apply (includes_suffix_word "google" "bot" _ Hw).
      + exists "bot". split; [cbn [In]; auto|].
        apply (includes_suffix_word "bing" "bot" _ Hw).
      + exists "slurp". cbn [In]. auto 7.
      + exists "bot". split; [cbn [In]; auto|].
        apply (includes_suffix_word "duckduck" "bot" _ Hw).
    - intros (w & Hin & Hw). exists w. split; [|exact Hw].
      cbn [In] in Hin |- *.
      destruct Hin as [<-|[<-|[<-|[<-|[<-|[]]]]]]; auto 8. }
  split; [exact Hbot|].
  split.
  { unfold detectBots. destruct (isBot userAgentHeader); split;
      try discriminate; try reflexivity; intros H; congruence. }
  split.
  { unfold detectBots. intros res.
    destruct (isBot userAgentHeader); [|discriminate].
    intros H. injection H as <-. split; reflexivity. }
  split.
  { unfold isBot at 1 2, testIgnoreCase. fold userAgent.
    rewrite lower_idempotent. reflexivity. }
  reflexivity.
Qed.

End SecurityProps.

Section AuthFlowsWitnesses.

Import SessionService Auth AuthRoutes Run Samples.

Lemma login_then_me_round_trip_witness :
  snd (@login sampleJwt (inr ("admin", "admin123")) 0 "sid"
              (anonymousRequest "/auth/login"))
  = LoginOk (mkAuthUser "1" "admin" "admin" ["read"; "write"; "delete"])
            (@generateJWT sampleJwt
               (mkAuthUser "1" "admin" "admin" ["read"; "write"; "delete"]))
            "sid".
Proof.
  destruct (@login_then_me_round_trip
              sampleJwt defaultTimeout 0 1000 1000 "sid" "admin" "admin123"
              (anonymousRequest "/auth/login")
              (mkAuthUser "1" "admin" "admin" ["read"; "write"; "delete"])
              eq_refl eq_refl)
    as (Hreply & _).
  exact Hreply.
Defined.

Lemma bearer_token_decides_without_session_witness :
  accepted (@requireAuth sampleJwt defaultTimeout 1000 1000
                         (bearerRequest "/proxy/status" "token-1")) = true
  <-> exists token payload,
      req_authorization (bearerRequest "/proxy/status" "token-1")
      = Some ("Bearer " ++ token)%string /\
      @jwt_verify sampleJwt token = Some payload.
Proof.
  exact (proj1 (@bearer_token_decides_without_session
                  sampleJwt defaultTimeout 1000 1000
                  (bearerRequest "/proxy/status" "token-1") eq_refl)).
Defined.

Lemma session_decides_before_token_witness :
  @requireAuth sampleJwt defaultTimeout 4000000 4000000 sessionAndTokenRequest
  = Reply (destroy sessionAndTokenRequest) sessionExpired.
Proof.
  apply (@session_decides_before_token
           sampleJwt defaultTimeout 4000000 4000000 0 sessionAndTokenRequest
           (mkSessionData (Some "1") (Some "admin") [] (Some 0))
           (mkJwtPayload "1" "admin" "admin" 0 86400)
           eq_refl eq_refl eq_refl eq_refl).
  unfold defaultTimeout. lia.
Defined.

Lemma guards_admit_only_the_role_witness :
  exists req' user,
    @requireAuth sampleJwt defaultTimeout 1000 1000
                 (sessionRequest "/proxy/metrics" "1" 0) = Next req' /\
    currentUser req' = Some user /\
    userRoleOf user = "admin".
Proof.
  apply (@guards_admit_only_the_role
           sampleJwt defaultTimeout 1000 1000 "admin" "read"
           (sessionRequest "/proxy/metrics" "1" 0)).
  reflexivity.
Defined.

Lemma logout_destroys_session_not_token_witness :
  @requireAuth sampleJwt defaultTimeout 2000 2000
     (fst (@logout sampleJwt defaultTimeout 1000 1000 false
                   sessionAndTokenRequest))
  = Next (setUser (DecodedToken (mkJwtPayload "1" "admin" "admin" 0 86400))
                  (fst (@logout sampleJwt defaultTimeout 1000 1000 false
                                sessionAndTokenRequest))).
Proof.
  destruct (@logout_destroys_session_not_token
              sampleJwt defaultTimeout 1000 1000 2000 2000
              sessionAndTokenRequest
              (updateLastActivity 1000 sessionAndTokenRequest) eq_refl)
    as (_ & _ & _ & _ & Htoken & _).
  apply Htoken. reflexivity.
Defined.

Lemma refresh_resigns_the_decoded_identity_witness :
  exists claims,
    @refresh sampleJwt (inr "token-2") = RefreshOk (@jwt_sign sampleJwt claims)
    /\ decodes_to claims (mkJwtPayload "2" "user" "user" 0 86400).
Proof.
  destruct (@refresh_resigns_the_decoded_identity
              sampleJwt "token-2" (mkJwtPayload "2" "user" "user" 0 86400)
              eq_refl)
    as ((claims & Hr & Hd & _) & _).
  exists claims. split; assumption.
Defined.

Lemma optional_then_require_on_a_session_witness :
  exists req',
    @optionalThenRequire sampleJwt defaultTimeout 3599999 3599999 3600000
                         3600000 sessionAndTokenRequest = Next req' /\
    req_session req'
    = Some (mkSessionData (Some "1") (Some "admin") [] (Some 3600000)).
Proof.
  apply (@optional_then_require_on_a_session
           sampleJwt defaultTimeout 3599999 3599999 3600000 3600000 0
           sessionAndTokenRequest
           (mkSessionData (Some "1") (Some "admin") [] (Some 0))
           eq_refl eq_refl eq_refl).
  - unfold defaultTimeout. lia.
  - unfold defaultTimeout. lia.
Defined.

Lemma me_with_a_token_witness :
  @me sampleJwt defaultTimeout 1000 1000
      (bearerRequest "/auth/me" "token-2")
  = (setUser (DecodedToken (mkJwtPayload "2" "user" "user" 0 86400))
             (bearerRequest "/auth/me" "token-2"),
     MeOk None "user" "user" None None).
Proof.
  apply (@me_with_a_token
           sampleJwt defaultTimeout 1000 1000
           (bearerRequest "/auth/me" "token-2")
           (mkJwtPayload "2" "user" "user" 0 86400) eq_refl eq_refl).
Defined.

End AuthFlowsWitnesses.
